(** * platformio/commands/init.py: the environment merge of [platformio init]

    A shallow embedding of [validate_boards], [fill_project_envs] and
    [_install_dependent_platforms], with the Python string, dict and
    ConfigParser operations they use, followed by the properties of the
    merge that the project specification states. *)

From Stdlib Require Import Ascii String.
From stdpp Require Import base decidable option list strings gmap.

(** ** Python [str] operations used by the module *)

Module Str.

(** [c in s] for a one-character [c]. *)
Fixpoint contains (c : ascii) (s : string) : bool :=
  match s with
  | EmptyString => false
  | String a s' => if Ascii.eqb a c then true else contains c s'
  end.

(** [s.split(c, 1)]: at most one split, at the first occurrence of [c];
    the result has one element when [c] does not occur and two when it
    does. *)
Fixpoint split1 (c : ascii) (s : string) : list string :=
  match s with
  | EmptyString => [EmptyString]
  | String a s' =>
      if Ascii.eqb a c then [EmptyString; s']
      else match split1 c s' with
           | h :: t => String a h :: t
           | [] => [String a EmptyString]
           end
  end.

(** The strings of the module are text: a character stands for a code
    point, and the model covers the code points below 256. [is_space] is
    the whitespace of Python's text strings among them, the characters
    that [strip()] with no argument removes: tab, line feed, vertical
    tab, form feed, carriage return (9 to 13), the four separators 28 to
    31, space, next line (133) and no-break space (160). *)
Definition is_space (a : ascii) : bool :=
  match a with
  | "009" | "010" | "011" | "012" | "013"
  | "028" | "029" | "030" | "031"
  | " " | "133" | "160" => true
  | _ => false
  end%char.

(** [s.lstrip()], [s.rstrip()] and [s.strip()] with no argument. *)
Fixpoint lstrip (s : string) : string :=
  match s with
  | EmptyString => EmptyString
  | String a s' => if is_space a then lstrip s' else s
  end.

Fixpoint rstrip (s : string) : string :=
  match s with
  | EmptyString => EmptyString
  | String a s' =>
      match rstrip s' with
      | EmptyString => if is_space a then EmptyString else String a EmptyString
      | r => String a r
      end
  end.

Definition strip (s : string) : string := rstrip (lstrip s).

(** [s.startswith(p)]. *)
Fixpoint startswith (s p : string) {struct p} : bool :=
  match p, s with
  | EmptyString, _ => true
  | String _ _, EmptyString => false
  | String b p', String a s' => Ascii.eqb a b && startswith s' p'
  end.
Global Arguments startswith : simpl never.

(** [sep.join(l)]. *)
Definition join (sep : string) (l : list string) : string := String.concat sep l.

(** Every character of the string is whitespace. *)
Fixpoint all_space (s : string) : bool :=
  match s with
  | EmptyString => true
  | String a s' => is_space a && all_space s'
  end.

(** First and last character, when there is one. *)
Definition first_char (s : string) : option ascii :=
  match s with
  | EmptyString => None
  | String a _ => Some a
  end.

Fixpoint last_char (s : string) : option ascii :=
  match s with
  | EmptyString => None
  | String a EmptyString => Some a
  | String _ s' => last_char s'
  end.

(** [s] neither starts nor ends with whitespace. *)
Definition trimmed (s : string) : Prop :=
  (∀ a, first_char s = Some a → is_space a = false)
  ∧ (∀ a, last_char s = Some a → is_space a = false).

(** [t] is [s] without some whitespace at its two ends. *)
Definition trims_to (s t : string) : Prop :=
  ∃ l r, s = l +:+ t +:+ r ∧ all_space l = true ∧ all_space r = true.

End Str.

(** ** Python [dict] with string keys and values

    [envopts] is rendered by iterating over [items()], so the order of the
    keys is part of the model: insertion order, and assigning to a key
    that is present keeps its position. The order only shows in the
    evaluated examples; no general property below depends on it. *)

Module Dict.

Definition t : Type := list (string * string).

Fixpoint get (k : string) (d : t) : option string :=
  match d with
  | [] => None
  | (k', v') :: d' => if decide (k' = k) then Some v' else get k d'
  end.

(** [d[k] = v]. *)
Fixpoint set (k v : string) (d : t) : t :=
  match d with
  | [] => [(k, v)]
  | (k', v') :: d' =>
      if decide (k' = k) then (k, v) :: d' else (k', v') :: set k v d'
  end.

Definition has_key (k : string) (d : t) : bool := bool_decide (is_Some (get k d)).

Definition items (d : t) : list (string * string) := d.

End Dict.

(** ** The project configuration object *)

(** Modelled from the spec: the object that [util.load_project_config]
    returns is built outside the sources; [init.py] uses its [sections()],
    [has_option(section, option)] and [get(section, option)]. It is
    modelled as the specification's ProjectConfig: an ordered mapping from
    section name to a mapping from option key to option value, the
    sections in file order. Lookups are by section name. *)

Module Config.

(** Modelled from the spec: ProjectConfig, the sections in file order,
    each a name with its options. *)
Definition t : Type := list (string * Dict.t).

Definition sections (config : t) : list string := config.*1.

Fixpoint options (section : string) (config : t) : option Dict.t :=
  match config with
  | [] => None
  | (name, opts) :: config' =>
      if decide (name = section) then Some opts else options section config'
  end.

Definition has_option (config : t) (section opt : string) : bool :=
  match options section config with
  | Some opts => Dict.has_key opt opts
  | None => false
  end.

(** [config.get(section, option)]; [None] stands for the NoSectionError
    or NoOptionError it raises. *)
Definition get (config : t) (section opt : string) : option string :=
  match options section config with
  | Some opts => Dict.get opt opts
  | None => None
  end.

End Config.

(** ** Board registry, exceptions and the observable world *)

(** The part of a board manifest that [fill_project_envs] reads:
    [board_config['platform']] and [board_config.get("frameworks")]
    ([None] when the manifest has no such key). *)
Record BoardConfig : Type := {
  platform : string;
  frameworks : option (list string)
}.

Inductive exn : Type :=
  | UnknownBoard (id_ : string)
  | BadParameter (message : string)
  | InstallFailure (platforms : list string).

Inductive outcome : Type :=
  | Returned
  | Raised (e : exn).

(** What the run does to its surroundings, in the order it happens. *)
Inductive event : Type :=
  | EvInstall (platforms : list string)
  | EvAppend (text : string).

(** [ini] is the text of the project's [platformio.ini], [installed] the
    names reported by [PlatformManager().get_installed()], [events] the
    log of installer invocations and file writes. *)
Record world : Type := {
  ini : string;
  installed : list string;
  events : list event
}.

(** State of the loop over [board_ids] in [fill_project_envs]. *)
Record acc : Type := {
  content : list string;
  used_boards : list string;
  used_platforms : list string
}.

(** ** A reader for the configuration file *)

(** Modelled from the spec: [util.load_project_config] and the ConfigParser
    it builds are not part of the sources. The specification describes the
    persisted layout as ini-like text: top-level sections, each introduced
    by a bracketed name, holding options rendered as [key = value], one per
    line; section names are unique within a ProjectConfig and keep their
    order of appearance. This reader implements exactly that: blank lines
    and lines starting with [#] or [;] are skipped, a repeated header
    continues the section of that name, and a repeated key replaces the
    earlier value. *)
Module Ini.

Fixpoint splitlines (s : string) : list string :=
  match s with
  | EmptyString => [EmptyString]
  | String a s' =>
      match splitlines s' with
      | h :: t => if Ascii.eqb a "010"%char then EmptyString :: h :: t else String a h :: t
      | [] => [String a EmptyString]
      end
  end.

Fixpoint chop_last (s : string) : string :=
  match s with
  | EmptyString => EmptyString
  | String a EmptyString => EmptyString
  | String a s' => String a (chop_last s')
  end.

(** [Some name] when the line is [[name]]. *)
Definition header (line : string) : option string :=
  match line with
  | String "[" rest =>
      if bool_decide (Str.last_char rest = Some "]"%char) then Some (chop_last rest) else None
  | _ => None
  end.

Fixpoint set_option (section k v : string) (config : Config.t) : Config.t :=
  match config with
  | [] => []
  | (name, opts) :: config' =>
      if decide (name = section) then (name, Dict.set k v opts) :: config'
      else (name, opts) :: set_option section k v config'
  end.

Definition is_comment (line : string) : bool :=
  match line with
  | String "#" _ | String ";" _ => true
  | _ => false
  end.

Definition read_line (st : Config.t * option string) (raw : string)
  : Config.t * option string :=
  let '(config, current) := st in
  let line := Str.strip raw in
  if bool_decide (line = EmptyString) || is_comment line then st
  else match header line with
       | Some name =>
           if bool_decide (name ∈ Config.sections config) then (config, Some name)
           else (config ++ [(name, [])], Some name)
       | None =>
           match current, Str.split1 "="%char line with
           | Some section, [k; v] =>
               (set_option section (Str.strip k) (Str.strip v) config, current)
           | _, _ => st
           end
       end.

(** Modelled from the spec: [util.load_project_config], applied to the
    text of the file; the lines are read in order, starting without
    sections. *)
Definition load (text : string) : Config.t :=
  (foldl read_line ([], None) (splitlines text)).1.

(** Text that this reader gives back as it was written: no line break,
    something other than whitespace at both ends; for a key, also no
    ['='] and no first character that starts a header or a comment. *)
Definition one_line (s : string) : bool := negb (Str.contains "010"%char s).

Definition plain_value (v : string) : bool :=
  one_line v
  && match Str.first_char v with Some a => negb (Str.is_space a) | None => false end
  && match Str.last_char v with Some a => negb (Str.is_space a) | None => false end.

Definition plain_key (k : string) : bool :=
  plain_value k
  && negb (Str.contains "="%char k)
  && match Str.first_char k with
     | Some "["%char | Some "#"%char | Some ";"%char => false
     | _ => true
     end.

Definition plain_options (opts : Dict.t) : bool :=
  forallb (λ '(k, v), plain_key k && plain_value v) opts.

Definition plain_env (env : string * Dict.t) : bool :=
  one_line env.1 && plain_options env.2.

End Ini.

(** ** The ignore file of the project: [init_cvs_ignore] *)

Module Ignore.

Definition nl : string := String "010" "".

(** [fp.readlines()] on the text of a file opened for reading: the lines
    in order, each with its line feed, the last one without when the text
    does not end in one. The text is what Python's text mode hands over,
    with line feeds as line ends. *)
Fixpoint readlines (s : string) : list string :=
  match s with
  | EmptyString => []
  | String a s' =>
      if Ascii.eqb a "010"%char then String a EmptyString :: readlines s'
      else match readlines s' with
           | h :: t => String a h :: t
           | [] => [String a EmptyString]
           end
  end.

(** [fp.writelines(lines)]. *)
Definition writelines (lines : list string) : string := String.concat "" lines.

(** [l.endswith("\n")]. *)
Definition ends_with_newline (l : string) : bool :=
  bool_decide (Str.last_char l = Some "010"%char).

(** [if current and not current[-1].endswith("\n"): current[-1] += "\n"]. *)
Fixpoint terminate_last (current : list string) : list string :=
  match current with
  | [] => []
  | [l] => if ends_with_newline l then [l] else [l +:+ nl]
  | l :: rest => l :: terminate_last rest
  end.

Definition default : list string := [".pioenvs" +:+ nl; ".piolibdeps" +:+ nl].

(** One round of [for d in default]. *)
Definition add_default (current : list string) (d : string) : list string :=
  if bool_decide (d ∈ current) then current else current ++ [d].

(** [init_cvs_ignore]: from the text of [.gitignore], or [None] when
    there is no such file, the text the function writes to it. *)
Definition init_cvs_ignore (existing : option string) : string :=
  let current :=
    match existing with
    | Some text => terminate_last (readlines text)
    | None => []
    end in
  writelines (foldl add_default current default).

(** A line of a file: no line feed but the one that ends it. *)
Definition is_line (l : string) : Prop :=
  ∃ body, l = body +:+ nl ∧ Str.contains "010"%char body = false.

(** What [readlines] gives: lines, the last of which may lack its line
    feed. *)
Inductive file_lines : list string → Prop :=
  | file_lines_nil : file_lines []
  | file_lines_open (l : string) :
      Str.contains "010"%char l = false → l ≠ EmptyString → file_lines [l]
  | file_lines_cons (l : string) (ls : list string) :
      is_line l → file_lines ls → file_lines (l :: ls).

End Ignore.

(** ** Fixtures for the concrete scenarios *)

Module Demo.

(** A small registry: [uno] and [due] default to the arduino framework,
    [esp32dev] to espidf, [bare] names no framework. *)
Definition registry (id_ : string) : option BoardConfig :=
  if decide (id_ = "uno") then
    Some {| platform := "atmelavr"; frameworks := Some ["arduino"] |}
  else if decide (id_ = "due") then
    Some {| platform := "atmelsam"; frameworks := Some ["arduino"] |}
  else if decide (id_ = "esp32dev") then
    Some {| platform := "espressif32"; frameworks := Some ["espidf"; "arduino"] |}
  else if decide (id_ = "bare") then
    Some {| platform := "native"; frameworks := None |}
  else None.

(** An installer that succeeds and one that raises. *)
Definition install_ok (platforms installed : list string) : option (list string) :=
  Some (installed ++ platforms).

Definition install_fails (platforms installed : list string) : option (list string) :=
  None.

Definition fresh (text : string) : world :=
  {| ini := text; installed := []; events := [] |}.

Definition nl : string := String "010" "".

(** A project file that already configures [uno] in [env:myenv]. *)
Definition myenv_ini : string :=
  "[env:myenv]" +:+ nl +:+ "platform = atmelavr" +:+ nl +:+ "board = uno" +:+ nl.

(** What a merge of [due] with the override [framework = mbed] appends,
    and the world after that merge of [myenv_ini]. *)
Definition due_text : string :=
  nl +:+ "[env:due]" +:+ nl +:+ "platform = atmelsam" +:+ nl
     +:+ "board = due" +:+ nl +:+ "framework = mbed" +:+ nl.

Definition after_due : world :=
  {| ini := myenv_ini +:+ due_text; installed := []; events := [EvAppend due_text] |}.

(** What a merge of [uno] appends: as it is, and under the override
    [board=due]. *)
Definition uno_text : string :=
  nl +:+ "[env:uno]" +:+ nl +:+ "platform = atmelavr" +:+ nl
     +:+ "board = uno" +:+ nl +:+ "framework = arduino" +:+ nl.

Definition uno_as_due_text : string :=
  nl +:+ "[env:uno]" +:+ nl +:+ "platform = atmelavr" +:+ nl
     +:+ "board = due" +:+ nl +:+ "framework = arduino" +:+ nl.

(** What a merge of [uno] and [due] appends under the override
    [board=uno]. *)
Definition both_as_uno_text : string :=
  uno_text +:+ nl +:+ "[env:due]" +:+ nl +:+ "platform = atmelsam" +:+ nl
     +:+ "board = uno" +:+ nl +:+ "framework = arduino" +:+ nl.

(** A project file whose section [env:uno] names the board [due]. *)
Definition uno_named_due_ini : string :=
  "[env:uno]" +:+ nl +:+ "board = due" +:+ nl.

(** The world after a merge of [uno] and [due] into an empty file. *)
Definition after_both : world :=
  let text := uno_text +:+ nl +:+ "[env:due]" +:+ nl +:+ "platform = atmelsam" +:+ nl
                +:+ "board = due" +:+ nl +:+ "framework = arduino" +:+ nl in
  {| ini := text; installed := []; events := [EvAppend text] |}.

(** A project file whose only environment has an empty [board] value. *)
Definition empty_board_ini : string :=
  "[env:x]" +:+ nl +:+ "board =" +:+ nl.

(** A project file in which two environments name the same board. *)
Definition twice_uno_ini : string :=
  "[env:a]" +:+ nl +:+ "board = uno" +:+ nl +:+ "[env:b]" +:+ nl +:+ "board = uno" +:+ nl.

End Demo.

(** ** The functions of [init.py] *)

Section Init.

(** The collaborators that live outside the module:
    [util.load_project_config], applied to the text of the project's
    [platformio.ini]; [PlatformManager().board_config], where [None]
    stands for the [exception.UnknownBoard] it raises; and the
    [platform install] command, which from the platforms to install and
    the installed ones gives the new installed ones, or [None] when it
    raises. *)
Variable load_project_config : string → Config.t.
Variable board_config : string → option BoardConfig.
Variable cli_platform_install : list string → list string → option (list string).

Definition bad_board_message (id_ : string) : string :=
  "`" +:+ id_ +:+ "`. Please search for board ID using `platformio boards` command".

(** The loop of [validate_boards]: the first identifier for which
    [pm.board_config] raises. *)
Fixpoint first_unknown (value : list string) : option string :=
  match value with
  | [] => None
  | id_ :: rest =>
      match board_config id_ with
      | None => Some id_
      | Some _ => first_unknown rest
      end
  end.

Definition validate_boards (value : list string) : exn + list string :=
  match first_unknown value with
  | Some id_ => inl (BadParameter (bad_board_message id_))
  | None => inr value
  end.

(** The first loop of [fill_project_envs]: the [board] values of the
    sections named [env:...]. [get] cannot raise under the guard. *)
Fixpoint scan_sections (config : Config.t) (secs : list string)
    (used_boards : list string) : list string :=
  match secs with
  | [] => used_boards
  | section :: rest =>
      let cond := [Str.startswith section "env:";
                   Config.has_option config section "board"] in
      if forallb (λ b, b) cond then
        match Config.get config section "board" with
        | Some b => scan_sections config rest (used_boards ++ [b])
        | None => scan_sections config rest used_boards
        end
      else scan_sections config rest used_boards
  end.

Definition configured_boards (config : Config.t) : list string :=
  scan_sections config (Config.sections config) [].

(** One round of [for item in project_option]. The unpacking of the
    split into [_name, _value] needs exactly two parts, which the guard
    ensures ([split1_contains] below). *)
Definition set_project_option (envopts : Dict.t) (item : string) : Dict.t :=
  if negb (Str.contains "="%char item) then envopts
  else match Str.split1 "="%char item with
       | [_name; _value] => Dict.set (Str.strip _name) (Str.strip _value) envopts
       | _ => envopts
       end.

Definition default_envopts (bc : BoardConfig) (id_ : string) : Dict.t :=
  let envopts := [("platform", platform bc); ("board", id_)] in
  match frameworks bc with
  | Some (framework :: _) => Dict.set "framework" framework envopts
  | _ => envopts
  end.

Definition build_envopts (bc : BoardConfig) (id_ : string)
    (project_option : list string) : Dict.t :=
  foldl set_project_option (default_envopts bc id_) project_option.

Definition section_name (env_prefix id_ : string) : string :=
  "env:" +:+ env_prefix +:+ id_.

Definition render_env (env_prefix id_ : string) (envopts : Dict.t) : list string :=
  [""; "[" +:+ section_name env_prefix id_ +:+ "]"]
    ++ map (λ '(name, value), name +:+ " = " +:+ value) (Dict.items envopts).

(** One round of [for id_ in board_ids]. *)
Definition board_step (project_option : list string) (env_prefix : string)
    (st : acc) (id_ : string) : exn + acc :=
  match board_config id_ with
  | None => inl (UnknownBoard id_)
  | Some bc =>
      let used_platforms' := used_platforms st ++ [platform bc] in
      if bool_decide (id_ ∈ used_boards st) then
        inr {| content := content st;
               used_boards := used_boards st;
               used_platforms := used_platforms' |}
      else
        let envopts := build_envopts bc id_ project_option in
        inr {| content := content st ++ render_env env_prefix id_ envopts;
               used_boards := used_boards st ++ [id_];
               used_platforms := used_platforms' |}
  end.

Fixpoint board_loop (project_option : list string) (env_prefix : string)
    (board_ids : list string) (st : acc) : exn + acc :=
  match board_ids with
  | [] => inr st
  | id_ :: rest =>
      match board_step project_option env_prefix st id_ with
      | inl e => inl e
      | inr st' => board_loop project_option env_prefix rest st'
      end
  end.

Definition _install_dependent_platforms (platforms : list string) (w : world)
    : outcome * world :=
  let installed_platforms := installed w in
  let wanted : gset string := list_to_set platforms in
  let have : gset string := list_to_set installed_platforms in
  if bool_decide (wanted ⊆ have) then (Returned, w)
  else
    let missing := elements (wanted ∖ have) in
    let w' := {| ini := ini w; installed := installed w;
                 events := events w ++ [EvInstall missing] |} in
    match cli_platform_install missing installed_platforms with
    | Some installed' =>
        (Returned, {| ini := ini w'; installed := installed'; events := events w' |})
    | None => (Raised (InstallFailure missing), w')
    end.

(** [open(..., "a")] followed by [f.write(text)]. *)
Definition append_ini (text : string) (w : world) : world :=
  {| ini := ini w +:+ text; installed := installed w;
     events := events w ++ [EvAppend text] |}.

Definition merge_plan (ini_text : string) (board_ids project_option : list string)
    (env_prefix : string) : exn + acc :=
  let config := load_project_config ini_text in
  board_loop project_option env_prefix board_ids
    {| content := []; used_boards := configured_boards config; used_platforms := [] |}.

Definition fill_project_envs (board_ids project_option : list string)
    (env_prefix : string) (force_download : bool) (w : world) : outcome * world :=
  match merge_plan (ini w) board_ids project_option env_prefix with
  | inl e => (Raised e, w)
  | inr st =>
      let '(o, w1) :=
        if force_download && negb (bool_decide (used_platforms st = []))
        then _install_dependent_platforms (used_platforms st) w
        else (Returned, w) in
      match o with
      | Raised e => (Raised e, w1)
      | Returned =>
          if bool_decide (content st = []) then (Returned, w1)
          else (Returned, append_ini (Str.join (String "010" "") (content st ++ [""])) w1)
      end
  end.

(** *** Reading the loops

    The descriptions below restate what the loops above compute, so
    that properties of the result can be read off; each is proved
    equal to the code further down. *)

(** The key and value an override string contributes, if any. *)
Definition override_of (item : string) : option (string * string) :=
  if Str.contains "="%char item then
    match Str.split1 "="%char item with
    | [_name; _value] => Some (Str.strip _name, Str.strip _value)
    | _ => None
    end
  else None.

(** The value of the last override string whose key is [k]. *)
Fixpoint last_override (k : string) (project_option : list string) : option string :=
  match project_option with
  | [] => None
  | item :: rest =>
      match last_override k rest with
      | Some v => Some v
      | None =>
          match override_of item with
          | Some (k', v) => if decide (k' = k) then Some v else None
          | None => None
          end
      end
  end.

(** The identifiers that get a new section, with their options, in the
    order the loop produces them. *)
Fixpoint new_envs (project_option board_ids used : list string)
    : list (string * Dict.t) :=
  match board_ids with
  | [] => []
  | id_ :: rest =>
      match board_config id_ with
      | None => []
      | Some bc =>
          if bool_decide (id_ ∈ used) then new_envs project_option rest used
          else (id_, build_envopts bc id_ project_option)
                 :: new_envs project_option rest (used ++ [id_])
      end
  end.

(** The platforms of the requested boards, one per request. *)
Fixpoint requested_platforms (board_ids : list string) : list string :=
  match board_ids with
  | [] => []
  | id_ :: rest =>
      match board_config id_ with
      | None => []
      | Some bc => platform bc :: requested_platforms rest
      end
  end.

(** The new environments as sections of a configuration. *)
Definition as_sections (env_prefix : string) (envs : list (string * Dict.t))
    : Config.t :=
  map (λ '(id_, envopts), (section_name env_prefix id_, envopts)) envs.

(** The sections a merge appends to the configuration read from [text]. *)
Definition appended_sections (text : string) (board_ids project_option : list string)
    (env_prefix : string) : Config.t :=
  as_sections env_prefix
    (new_envs project_option board_ids (configured_boards (load_project_config text))).

(** The [board] value a section contributes to [used_boards]. *)
Definition env_board (section : string * Dict.t) : option string :=
  if Str.startswith section.1 "env:" then Dict.get "board" section.2 else None.

(** The environment sections of [config] whose [board] option is [b]. *)
Definition envs_with_board (config : Config.t) (b : string) : list string :=
  filter (λ section,
            Str.startswith section "env:" = true
            ∧ Config.get config section "board" = Some b)
         (Config.sections config).

Definition is_append (e : event) : bool :=
  match e with
  | EvAppend _ => true
  | EvInstall _ => false
  end.

(** *** [get_first_board] and the command itself *)

(** The loop of [get_first_board]; under the guard [get] cannot raise. *)
Fixpoint first_board (config : Config.t) (secs : list string) : option string :=
  match secs with
  | [] => None
  | section :: rest =>
      if negb (Str.startswith section "env:") then first_board config rest
      else if Config.has_option config section "board"
           then Config.get config section "board"
           else first_board config rest
  end.

Definition get_first_board (text : string) : option string :=
  let config := load_project_config text in
  first_board config (Config.sections config).

(** How a call of [cli] ends: it returns, having called
    [ProjectGenerator(project_dir, ide, board).generate()] or not; or
    [fill_project_envs] raised; or it raised [exception.BoardNotDefined]. *)
Inductive cli_result : Type :=
  | CliReturned (generated : option (string * string))
  | CliRaised (e : exn)
  | CliBoardNotDefined.

(** [cli] from the call of [fill_project_envs] on, in a world whose
    [platformio.ini] exists, as [init_base_project] leaves it (it writes
    the file only when there is none). [board] is the tuple of [-b]
    values, [ide] the value of [--ide] or [None]. What the command
    prints, and what the generator does once it is called, are not part
    of the world. [if ide] and [if board] are Python truth tests: an empty
    string and an empty list count as false. *)
Definition cli (board project_option : list string) (ide : option string)
    (env_prefix : string) (w : world) : cli_result * world :=
  let '(o, w1) :=
    if bool_decide (board ≠ [])
    then fill_project_envs board project_option env_prefix (bool_decide (is_Some ide)) w
    else (Returned, w) in
  match o with
  | Raised e => (CliRaised e, w1)
  | Returned =>
      match ide with
      | Some ide_ =>
          if bool_decide (ide_ ≠ "") then
            let board' :=
              if bool_decide (board = []) then
                match get_first_board (ini w1) with
                | Some b => if bool_decide (b ≠ "") then [b] else []
                | None => []
                end
              else board in
            match board' with
            | [] => (CliBoardNotDefined, w1)
            | b0 :: _ => (CliReturned (Some (ide_, b0)), w1)
            end
          else (CliReturned None, w1)
      | None => (CliReturned None, w1)
      end
  end.

(** ** Properties of the string and dict operations *)

Lemma app_cons (a : ascii) (s t : string) : String a s +:+ t = String a (s +:+ t).
Proof. reflexivity. Qed.

Lemma app_empty_r (s : string) : s +:+ "" = s.
Proof. induction s as [|a s IH]; [done|]. by rewrite app_cons, IH. Qed.

Lemma app_assoc_str (s t u : string) : (s +:+ t) +:+ u = s +:+ (t +:+ u).
Proof. induction s as [|a s IH]; [done|]. by rewrite !app_cons, IH. Qed.

Lemma split1_absent (c : ascii) (s : string) :
  Str.contains c s = false → Str.split1 c s = [s].
Proof.
  induction s as [|a s IH]; simpl; [done|].
  destruct (Ascii.eqb a c); [done|]. intros H. by rewrite (IH H).
Qed.

Lemma split1_first (c : ascii) (k v : string) :
  Str.contains c k = false → Str.split1 c (k +:+ String c v) = [k; v].
Proof.
  induction k as [|a k IH]; simpl.
  - intros _. by rewrite Ascii.eqb_refl.
  - destruct (Ascii.eqb a c) eqn:E; [done|]. intros H. by rewrite (IH H).
Qed.

Lemma contains_split (c : ascii) (s : string) :
  Str.contains c s = true →
  ∃ k v, s = k +:+ String c v ∧ Str.contains c k = false.
Proof.
  induction s as [|a s IH]; simpl; [done|].
  destruct (Ascii.eqb a c) eqn:E.
  - intros _. apply Ascii.eqb_eq in E as ->. by exists "", s.
  - intros H. destruct (IH H) as (k & v & -> & Hk).
    exists (String a k), v. split; [done|]. simpl. by rewrite E.
Qed.

Lemma contains_app (c : ascii) (k v : string) :
  Str.contains c (k +:+ String c v) = true.
Proof.
  induction k as [|a k IH]; simpl.
  - by rewrite Ascii.eqb_refl.
  - by destruct (Ascii.eqb a c).
Qed.

(** Under the guard ["=" in item] the split has exactly two parts, so
    the unpacking into [_name, _value] cannot fail. *)
Lemma split1_contains (c : ascii) (s : string) :
  Str.contains c s = true →
  ∃ k v, Str.split1 c s = [k; v] ∧ s = k +:+ String c v ∧ Str.contains c k = false.
Proof.
  intros H. destruct (contains_split c s H) as (k & v & -> & Hk).
  exists k, v. by rewrite split1_first.
Qed.

Lemma lstrip_decompose (s : string) :
  ∃ l, s = l +:+ Str.lstrip s ∧ Str.all_space l = true.
Proof.
  induction s as [|a s (l & IH & Hl)]; simpl.
  - by exists "".
  - destruct (Str.is_space a) eqn:E.
    + exists (String a l). rewrite app_cons, <- IH. simpl. by rewrite E, Hl.
    + by exists "".
Qed.

Lemma lstrip_first (s : string) (a : ascii) :
  Str.first_char (Str.lstrip s) = Some a → Str.is_space a = false.
Proof.
  induction s as [|b s IH]; simpl; [done|].
  destruct (Str.is_space b) eqn:E; [done|]. simpl. by intros [= <-].
Qed.

Lemma rstrip_decompose (s : string) :
  ∃ r, s = Str.rstrip s +:+ r ∧ Str.all_space r = true.
Proof.
  induction s as [|a s (r & IH & Hr)]; simpl.
  - by exists "".
  - destruct (Str.rstrip s) as [|b t] eqn:Et.
    + destruct (Str.is_space a) eqn:E.
      * exists (String a r). change ("" +:+ r) with r in IH.
        rewrite IH. split; [done|]. simpl. by rewrite E, Hr.
      * exists r. by rewrite app_cons, <- IH.
    + exists r. by rewrite app_cons, <- IH.
Qed.

Lemma rstrip_last (s : string) (a : ascii) :
  Str.last_char (Str.rstrip s) = Some a → Str.is_space a = false.
Proof.
  induction s as [|b s IH]; simpl; [done|].
  destruct (Str.rstrip s) as [|c t] eqn:Et.
  - destruct (Str.is_space b) eqn:E; simpl; [done|]. by intros [= <-].
  - simpl. exact IH.
Qed.

Lemma rstrip_first (s : string) (a : ascii) :
  Str.first_char (Str.rstrip s) = Some a → Str.first_char s = Some a.
Proof.
  destruct s as [|b s]; simpl; [done|].
  destruct (Str.rstrip s); [destruct (Str.is_space b)|]; simpl; done.
Qed.

(** [strip] removes whitespace at both ends and nothing else, and what
    it leaves neither starts nor ends with whitespace. *)
Lemma strip_decompose (s : string) :
  ∃ l r, s = l +:+ Str.strip s +:+ r
         ∧ Str.all_space l = true ∧ Str.all_space r = true.
Proof.
  destruct (lstrip_decompose s) as (l & Hs & Hl).
  destruct (rstrip_decompose (Str.lstrip s)) as (r & Hm & Hr).
  exists l, r. unfold Str.strip. by rewrite <- Hm, <- Hs.
Qed.

Lemma strip_trimmed (s : string) :
  (∀ a, Str.first_char (Str.strip s) = Some a → Str.is_space a = false)
  ∧ (∀ a, Str.last_char (Str.strip s) = Some a → Str.is_space a = false).
Proof.
  split; intros a H.
  - apply rstrip_first in H. by apply lstrip_first in H.
  - by apply rstrip_last in H.
Qed.

Lemma lstrip_id (s : string) :
  (∀ a, Str.first_char s = Some a → Str.is_space a = false) → Str.lstrip s = s.
Proof.
  destruct s as [|a s]; simpl; [done|]. intros H. by rewrite (H a eq_refl).
Qed.

Lemma rstrip_id (s : string) :
  (∀ a, Str.last_char s = Some a → Str.is_space a = false) → Str.rstrip s = s.
Proof.
  induction s as [|a s IH]; simpl; [done|]. intros H.
  destruct s as [|b s].
  - simpl. by rewrite (H a eq_refl).
  - rewrite IH; [done|]. intros c Hc. apply H. exact Hc.
Qed.

(** A string with no whitespace at either end is left as it is. *)
Lemma strip_id (s : string) :
  (∀ a, Str.first_char s = Some a → Str.is_space a = false) →
  (∀ a, Str.last_char s = Some a → Str.is_space a = false) →
  Str.strip s = s.
Proof.
  intros Hf Hl. unfold Str.strip. rewrite (lstrip_id s Hf). by apply rstrip_id.
Qed.


Lemma first_char_app (s t : string) :
  s ≠ "" → Str.first_char (s +:+ t) = Str.first_char s.
Proof. by destruct s. Qed.

Lemma last_char_app (s t : string) :
  t ≠ "" → Str.last_char (s +:+ t) = Str.last_char t.
Proof.
  intros Ht. induction s as [|a s IH]; [done|]. rewrite app_cons.
  change (Str.last_char (String a (s +:+ t)))
    with (match s +:+ t with "" => Some a | _ => Str.last_char (s +:+ t) end).
  destruct (s +:+ t) eqn:E; [|done].
  destruct s; [|done]. by destruct t.
Qed.

Lemma dict_get_set_eq (k v : string) (d : Dict.t) :
  Dict.get k (Dict.set k v d) = Some v.
Proof.
  induction d as [|[k' v'] d IH]; simpl.
  - by rewrite decide_True.
  - destruct (decide (k' = k)) as [->|Hne]; simpl.
    + by rewrite decide_True.
    + by rewrite decide_False.
Qed.

Lemma dict_get_set_ne (k k' v : string) (d : Dict.t) :
  k ≠ k' → Dict.get k' (Dict.set k v d) = Dict.get k' d.
Proof.
  intros Hne. induction d as [|[k0 v0] d IH]; simpl.
  - by rewrite decide_False.
  - destruct (decide (k0 = k)) as [->|Hne0]; simpl.
    + by rewrite !decide_False.
    + destruct (decide (k0 = k')); [done|]. exact IH.
Qed.

(** ** Properties of the override loop *)

Lemma set_project_option_override (envopts : Dict.t) (item : string) :
  set_project_option envopts item =
    match override_of item with
    | Some (k, v) => Dict.set k v envopts
    | None => envopts
    end.
Proof.
  unfold set_project_option, override_of.
  destruct (Str.contains "=" item); simpl; [|done].
  by destruct (Str.split1 "=" item) as [|? [|? [|? ?]]].
Qed.

Lemma override_of_absent (item : string) :
  Str.contains "="%char item = false → override_of item = None.
Proof. unfold override_of. by intros ->. Qed.

Lemma override_of_split (k v : string) :
  Str.contains "="%char k = false →
  override_of (k +:+ String "=" v) = Some (Str.strip k, Str.strip v).
Proof.
  intros Hk. unfold override_of. by rewrite contains_app, split1_first.
Qed.

Lemma override_of_present (item : string) :
  Str.contains "="%char item = true →
  ∃ k v, item = k +:+ String "=" v ∧ Str.contains "="%char k = false
         ∧ override_of item = Some (Str.strip k, Str.strip v).
Proof.
  intros H. destruct (contains_split _ _ H) as (k & v & -> & Hk).
  exists k, v. by rewrite override_of_split.
Qed.

Lemma get_after_overrides (k : string) (project_option : list string) (d : Dict.t) :
  Dict.get k (foldl set_project_option d project_option) =
    match last_override k project_option with
    | Some v => Some v
    | None => Dict.get k d
    end.
Proof.
  revert d. induction project_option as [|item rest IH]; intros d; simpl; [done|].
  rewrite IH. destruct (last_override k rest); [done|].
  rewrite set_project_option_override.
  destruct (override_of item) as [[k' v]|]; [|done].
  destruct (decide (k' = k)) as [->|Hne].
  - apply dict_get_set_eq.
  - by apply dict_get_set_ne.
Qed.

Lemma overrides_skip_malformed (project_option : list string) (d : Dict.t) :
  foldl set_project_option d project_option =
    foldl set_project_option d
      (filter (λ item, Str.contains "="%char item = true) project_option).
Proof.
  revert d. induction project_option as [|item rest IH]; intros d; simpl; [done|].
  destruct (Str.contains "=" item) eqn:E.
  - rewrite filter_cons_True by done. simpl. apply IH.
  - rewrite filter_cons_False by (by rewrite E).
    rewrite set_project_option_override, override_of_absent by done. apply IH.
Qed.

Lemma default_platform (bc : BoardConfig) (id_ : string) :
  Dict.get "platform" (default_envopts bc id_) = Some (platform bc).
Proof. unfold default_envopts. by destruct (frameworks bc) as [[|f fs]|]. Qed.

Lemma default_board (bc : BoardConfig) (id_ : string) :
  Dict.get "board" (default_envopts bc id_) = Some id_.
Proof. unfold default_envopts. by destruct (frameworks bc) as [[|f fs]|]. Qed.

Lemma default_framework (bc : BoardConfig) (id_ : string) :
  Dict.get "framework" (default_envopts bc id_) = frameworks bc ≫= head.
Proof. unfold default_envopts. by destruct (frameworks bc) as [[|f fs]|]. Qed.

Lemma default_other (bc : BoardConfig) (id_ k : string) :
  k ≠ "platform" → k ≠ "board" → k ≠ "framework" →
  Dict.get k (default_envopts bc id_) = None.
Proof.
  intros H1 H2 H3. unfold default_envopts.
  destruct (frameworks bc) as [[|f fs]|]; simpl;
    rewrite ?decide_False by done; done.
Qed.


(** ** Properties of the loop over the requested boards *)

Lemma first_unknown_spec (value : list string) (bad : string) :
  first_unknown value = Some bad →
  ∃ before after, value = before ++ bad :: after
                  ∧ board_config bad = None
                  ∧ Forall (λ id_, is_Some (board_config id_)) before.
Proof.
  induction value as [|id_ rest IH]; simpl; [done|].
  destruct (board_config id_) as [bc|] eqn:E.
  - intros H. destruct (IH H) as (before & after & -> & Hbad & Hok).
    exists (id_ :: before), after. split_and!; [done|done|].
    constructor; [by rewrite E|done].
  - intros [= <-]. by exists [], rest.
Qed.

Lemma first_unknown_exists (value : list string) :
  (∃ id_, id_ ∈ value ∧ board_config id_ = None) →
  ∃ bad, first_unknown value = Some bad.
Proof.
  induction value as [|id_ rest IH]; simpl.
  - intros (? & H & _). by apply elem_of_nil in H.
  - intros (x & Hx & Hnone). destruct (board_config id_) eqn:E; [|by eexists].
    apply IH. exists x. split; [|done].
    apply elem_of_cons in Hx as [->|Hx]; [congruence|done].
Qed.


Lemma board_loop_unknown (project_option : list string) (env_prefix : string)
    (board_ids : list string) (st : acc) (bad : string) :
  first_unknown board_ids = Some bad →
  board_loop project_option env_prefix board_ids st = inl (UnknownBoard bad).
Proof.
  revert st. induction board_ids as [|id_ rest IH]; intros st; simpl; [done|].
  unfold board_step. destruct (board_config id_) as [bc|] eqn:E.
  - intros H. destruct (bool_decide (id_ ∈ used_boards st)); by apply IH.
  - by intros [= <-].
Qed.

Lemma board_loop_known (project_option : list string) (env_prefix : string)
    (board_ids : list string) (st : acc) :
  first_unknown board_ids = None →
  board_loop project_option env_prefix board_ids st =
    inr {| content := content st
             ++ flat_map (λ '(id_, envopts), render_env env_prefix id_ envopts)
                  (new_envs project_option board_ids (used_boards st));
           used_boards := used_boards st
             ++ (new_envs project_option board_ids (used_boards st)).*1;
           used_platforms := used_platforms st ++ requested_platforms board_ids |}.
Proof.
  revert st. induction board_ids as [|id_ rest IH]; intros st; simpl.
  - intros _. rewrite !app_nil_r. by destruct st.
  - unfold board_step. destruct (board_config id_) as [bc|] eqn:E; [|done].
    intros H. destruct (bool_decide (id_ ∈ used_boards st)) eqn:Hin.
    + rewrite (IH _ H). simpl. by rewrite <- !(assoc_L (++)).
    + rewrite (IH _ H). simpl. by rewrite <- !(assoc_L (++)).
Qed.

Lemma board_loop_inr (project_option : list string) (env_prefix : string)
    (board_ids : list string) (st st' : acc) :
  board_loop project_option env_prefix board_ids st = inr st' →
  first_unknown board_ids = None.
Proof.
  destruct (first_unknown board_ids) as [bad|] eqn:E; [|done].
  by rewrite (board_loop_unknown _ _ _ _ _ E).
Qed.

Lemma new_envs_fresh (project_option board_ids used : list string) (id_ : string) :
  id_ ∈ (new_envs project_option board_ids used).*1 → id_ ∈ board_ids ∧ id_ ∉ used.
Proof.
  revert used. induction board_ids as [|x rest IH]; intros used; simpl.
  - by intros ?%elem_of_nil.
  - destruct (board_config x) as [bc|]; [|by intros ?%elem_of_nil].
    case_bool_decide as Hin.
    + intros H. destruct (IH _ H). split; [by right|done].
    + simpl. intros [->|H]%elem_of_cons; [split; [by left|done]|].
      destruct (IH _ H) as [? Hn]. split; [by right|].
      intros ?. apply Hn, elem_of_app. by left.
Qed.

Lemma new_envs_nodup (project_option board_ids used : list string) :
  NoDup (new_envs project_option board_ids used).*1.
Proof.
  revert used. induction board_ids as [|x rest IH]; intros used; simpl.
  - constructor.
  - destruct (board_config x) as [bc|]; [|constructor].
    case_bool_decide as Hin; [done|]. simpl. constructor; [|done].
    intros [_ Hn]%new_envs_fresh. apply Hn, elem_of_app. right. by left.
Qed.

Lemma new_envs_covers (project_option board_ids used : list string) (id_ : string) :
  first_unknown board_ids = None → id_ ∈ board_ids →
  id_ ∈ used ++ (new_envs project_option board_ids used).*1.
Proof.
  revert used. induction board_ids as [|x rest IH]; intros used; simpl.
  - by intros _ ?%elem_of_nil.
  - destruct (board_config x) as [bc|]; [|done]. intros Hk Hin.
    case_bool_decide as Hx.
    + apply elem_of_cons in Hin as [->|Hin]; [|by apply IH].
      apply elem_of_app. by left.
    + simpl. apply elem_of_cons in Hin as [->|Hin].
      * apply elem_of_app. right. by left.
      * specialize (IH (used ++ [x]) Hk Hin).
        rewrite <- (assoc_L (++)) in IH. exact IH.
Qed.

Lemma new_envs_none (project_option board_ids used : list string) :
  (∀ id_, id_ ∈ board_ids → id_ ∈ used) →
  new_envs project_option board_ids used = [].
Proof.
  induction board_ids as [|x rest IH]; simpl; [done|]. intros H.
  destruct (board_config x) as [bc|]; [|done].
  rewrite bool_decide_eq_true_2 by (apply H; by left).
  apply IH. intros y Hy. apply H. by right.
Qed.

Lemma new_envs_envopts (project_option board_ids used : list string)
    (id_ : string) (envopts : Dict.t) :
  (id_, envopts) ∈ new_envs project_option board_ids used →
  ∃ bc, board_config id_ = Some bc ∧ envopts = build_envopts bc id_ project_option.
Proof.
  revert used. induction board_ids as [|x rest IH]; intros used; simpl.
  - by intros ?%elem_of_nil.
  - destruct (board_config x) as [bc|] eqn:E; [|by intros ?%elem_of_nil].
    case_bool_decide as Hin; [apply IH|].
    intros [[= -> ->]|H]%elem_of_cons; [by exists bc|by eapply IH].
Qed.

Lemma requested_platforms_spec (board_ids : list string) (id_ : string) (bc : BoardConfig) :
  first_unknown board_ids = None → id_ ∈ board_ids → board_config id_ = Some bc →
  platform bc ∈ requested_platforms board_ids.
Proof.
  induction board_ids as [|x rest IH]; simpl.
  - by intros _ ?%elem_of_nil.
  - destruct (board_config x) as [bcx|] eqn:E; [|done].
    intros Hk [->|Hin]%elem_of_cons Hbc.
    + rewrite E in Hbc. injection Hbc as ->. by left.
    + right. by apply IH.
Qed.

Lemma requested_platforms_length (board_ids : list string) :
  first_unknown board_ids = None →
  length (requested_platforms board_ids) = length board_ids.
Proof.
  induction board_ids as [|x rest IH]; simpl; [done|].
  destruct (board_config x); [|done]. intros H. simpl. by rewrite IH.
Qed.


(** ** Properties of the scan of the existing sections *)

Lemma scan_sections_acc (config : Config.t) (secs used : list string) :
  scan_sections config secs used = used ++ scan_sections config secs [].
Proof.
  revert used. induction secs as [|section rest IH]; intros used; simpl.
  - by rewrite app_nil_r.
  - destruct (Str.startswith section "env:" && (Config.has_option config section "board" && true));
      [|apply IH].
    destruct (Config.get config section "board") as [b|]; [|apply IH].
    rewrite (IH (used ++ [b])), (IH [b]). by rewrite <- (assoc_L (++)).
Qed.

Lemma options_nodup (config : Config.t) (name : string) (opts : Dict.t) :
  NoDup (Config.sections config) → (name, opts) ∈ config →
  Config.options name config = Some opts.
Proof.
  unfold Config.sections. induction config as [|[n o] config IH]; simpl.
  - by intros _ ?%elem_of_nil.
  - intros [Hn Hnd]%NoDup_cons [[= -> ->]|Hin]%elem_of_cons.
    + by rewrite decide_True.
    + rewrite decide_False; [by apply IH|].
      intros ->. apply Hn. apply list_elem_of_fmap. by exists (name, opts).
Qed.

Lemma scan_sections_omap (config l : Config.t) :
  (∀ name opts, (name, opts) ∈ l → Config.options name config = Some opts) →
  scan_sections config l.*1 [] = omap env_board l.
Proof.
  induction l as [|[name opts] l IH]; intros H; simpl; [done|].
  unfold Config.has_option, Config.get, env_board, Dict.has_key; simpl.
  rewrite (H name opts) by by left.
  assert (scan_sections config l.*1 [] = omap env_board l) as IH'.
  { apply IH. intros n o Hin. apply H. by right. }
  destruct (Str.startswith name "env:"); simpl; [|done].
  destruct (Dict.get "board" opts) as [b|] eqn:E.
  - rewrite bool_decide_eq_true_2 by by eexists. simpl.
    rewrite scan_sections_acc. simpl. f_equal. exact IH'.
  - rewrite bool_decide_eq_false_2 by (by intros [? [=]]). exact IH'.
Qed.

(** When section names are unique, the boards already in use are the
    [board] values of the [env:] sections, in file order. *)
Lemma configured_boards_omap (config : Config.t) :
  NoDup (Config.sections config) → configured_boards config = omap env_board config.
Proof.
  intros Hnd. apply scan_sections_omap. intros. by apply options_nodup.
Qed.

Lemma startswith_section_name (env_prefix id_ : string) :
  Str.startswith (section_name env_prefix id_) "env:" = true.
Proof. reflexivity. Qed.

Lemma env_board_section (env_prefix id_ : string) (envopts : Dict.t) :
  env_board (section_name env_prefix id_, envopts) = Dict.get "board" envopts.
Proof. reflexivity. Qed.

Lemma omap_cons_board (section : string * Dict.t) (l : Config.t) :
  omap env_board (section :: l) =
    match env_board section with
    | Some b => b :: omap env_board l
    | None => omap env_board l
    end.
Proof. reflexivity. Qed.

Lemma omap_new_envs (project_option board_ids used : list string) (env_prefix : string) :
  last_override "board" project_option = None →
  omap env_board (as_sections env_prefix (new_envs project_option board_ids used))
    = (new_envs project_option board_ids used).*1.
Proof.
  intros Hb.
  assert (∀ envs : list (string * Dict.t),
            (∀ id_ envopts, (id_, envopts) ∈ envs →
               ∃ bc, board_config id_ = Some bc
                     ∧ envopts = build_envopts bc id_ project_option) →
            omap env_board (as_sections env_prefix envs) = envs.*1) as Hgen.
  { induction envs as [|[id_ envopts] envs IH]; intros H; [done|].
    destruct (H id_ envopts) as (bc & _ & ->); [by left|].
    change (omap env_board (as_sections env_prefix ((id_, build_envopts bc id_ project_option) :: envs)))
      with (match env_board (section_name env_prefix id_, build_envopts bc id_ project_option) with
            | Some b => b :: omap env_board (as_sections env_prefix envs)
            | None => omap env_board (as_sections env_prefix envs)
            end).
    rewrite env_board_section. unfold build_envopts.
    rewrite get_after_overrides, Hb, default_board. simpl.
    f_equal. apply IH. intros ?? Hin. apply H. by right. }
  apply Hgen. intros ??. apply new_envs_envopts.
Qed.

Lemma filter_eq_notin (b : string) (l : list string) :
  b ∉ l → filter (λ x, x = b) l = [].
Proof.
  induction l as [|x l IH]; [done|]. intros [Hne Hn]%not_elem_of_cons.
  rewrite filter_cons_False by congruence. by apply IH.
Qed.

Lemma nodup_count (l : list string) :
  NoDup l ↔ ∀ b, length (filter (λ x, x = b) l) ≤ 1.
Proof.
  induction l as [|x l IH].
  - split; [intros _ b; simpl; lia|constructor].
  - rewrite NoDup_cons, IH. split.
    + intros [Hx Hl] b. destruct (decide (x = b)) as [->|Hne].
      * rewrite filter_cons_True by done. rewrite filter_eq_notin by done. simpl. lia.
      * rewrite filter_cons_False by done. apply Hl.
    + intros H. split.
      * intros Hin. specialize (H x). rewrite filter_cons_True in H by done.
        simpl in H. assert (x ∈ filter (λ y, y = x) l) as Hf
          by (apply list_elem_of_filter; done).
        destruct (filter (λ y, y = x) l); [by apply elem_of_nil in Hf|simpl in H; lia].
      * intros b. specialize (H b). destruct (decide (x = b)).
        -- rewrite filter_cons_True in H by done. simpl in H. lia.
        -- by rewrite filter_cons_False in H by done.
Qed.

Lemma envs_with_board_count (config : Config.t) (b : string) :
  NoDup (Config.sections config) →
  length (envs_with_board config b)
    = length (filter (λ x, x = b) (omap env_board config)).
Proof.
  intros Hnd. unfold envs_with_board, Config.sections.
  assert (∀ l : Config.t,
            (∀ name opts, (name, opts) ∈ l → Config.options name config = Some opts) →
            length (filter (λ section, Str.startswith section "env:" = true
                                       ∧ Config.get config section "board" = Some b) l.*1)
            = length (filter (λ x, x = b) (omap env_board l))) as Hgen.
  { induction l as [|[name opts] l IH]; intros H; [done|].
    assert (Config.get config name "board" = Dict.get "board" opts) as Hget.
    { unfold Config.get. by rewrite (H name opts) by by left. }
    assert (∀ n o, (n, o) ∈ l → Config.options n config = Some o) as Hl
      by (intros n o Hin; apply H; by right).
    specialize (IH Hl).
    rewrite fmap_cons, omap_cons_board. unfold env_board at 1. cbn [fst snd].
    destruct (Str.startswith name "env:") eqn:Es.
    - destruct (Dict.get "board" opts) as [b'|] eqn:Eb.
      + destruct (decide (b' = b)) as [->|Hne].
        * rewrite !filter_cons_True by (by rewrite ?Hget).
          cbn [length]. f_equal. exact IH.
        * rewrite !filter_cons_False
            by first [congruence | intros [_ ?]; congruence].
          exact IH.
      + rewrite filter_cons_False by (intros [_ ?]; congruence). exact IH.
    - rewrite filter_cons_False by (intros [? _]; congruence). exact IH. }
  apply Hgen. intros. by apply options_nodup.
Qed.


(** ** The result of the two loops, and of the installer *)

Lemma merge_plan_inr (text : string) (board_ids project_option : list string)
    (env_prefix : string) (st : acc) :
  merge_plan text board_ids project_option env_prefix = inr st →
  let used := configured_boards (load_project_config text) in
  let envs := new_envs project_option board_ids used in
  first_unknown board_ids = None
  ∧ content st = flat_map (λ '(id_, envopts), render_env env_prefix id_ envopts) envs
  ∧ used_boards st = used ++ envs.*1
  ∧ used_platforms st = requested_platforms board_ids.
Proof.
  unfold merge_plan. intros H. pose proof (board_loop_inr _ _ _ _ _ H) as Hk.
  rewrite (board_loop_known _ _ _ _ Hk) in H. injection H as <-. by simpl.
Qed.

Lemma merge_plan_unknown (text : string) (board_ids project_option : list string)
    (env_prefix : string) (bad : string) :
  first_unknown board_ids = Some bad →
  merge_plan text board_ids project_option env_prefix = inl (UnknownBoard bad).
Proof. intros H. unfold merge_plan. by apply board_loop_unknown. Qed.

Lemma render_env_nonempty (env_prefix id_ : string) (envopts : Dict.t) :
  render_env env_prefix id_ envopts ≠ [].
Proof. done. Qed.

Lemma content_nil_new_envs (env_prefix : string) (envs : list (string * Dict.t)) :
  flat_map (λ '(id_, envopts), render_env env_prefix id_ envopts) envs = [] ↔ envs = [].
Proof.
  split; [|by intros ->]. by destruct envs as [|[id_ envopts] envs].
Qed.

Lemma install_dependent_spec (platforms : list string) (w : world) :
  (_install_dependent_platforms platforms w = (Returned, w)
   ∧ ∀ p, p ∈ platforms → p ∈ installed w)
  ∨ ∃ missing,
      missing ≠ []
      ∧ (∀ p, p ∈ missing ↔ p ∈ platforms ∧ p ∉ installed w)
      ∧ ((∃ installed',
            cli_platform_install missing (installed w) = Some installed'
            ∧ _install_dependent_platforms platforms w =
                (Returned, {| ini := ini w; installed := installed';
                              events := events w ++ [EvInstall missing] |}))
         ∨ (cli_platform_install missing (installed w) = None
            ∧ _install_dependent_platforms platforms w =
                (Raised (InstallFailure missing),
                 {| ini := ini w; installed := installed w;
                    events := events w ++ [EvInstall missing] |}))).
Proof.
  unfold _install_dependent_platforms. case_bool_decide as Hsub.
  - left. split; [done|]. intros p Hp.
    assert (p ∈ (list_to_set (installed w) : gset string)) as Hin
      by (apply Hsub; by apply elem_of_list_to_set).
    by apply elem_of_list_to_set in Hin.
  - right. eexists. split_and!.
    + intros Hnil. apply Hsub. intros p Hp.
      destruct (decide (p ∈ (list_to_set (installed w) : gset string))) as [|Hn]; [done|].
      assert (p ∈ elements ((list_to_set platforms : gset string)
                            ∖ list_to_set (installed w))) as Hel
        by (apply elem_of_elements, elem_of_difference; done).
      rewrite Hnil in Hel. by apply elem_of_nil in Hel.
    + intros p. rewrite elem_of_elements, elem_of_difference, !elem_of_list_to_set. done.
    + destruct (cli_platform_install _ _) as [installed'|] eqn:E.
      * left. by exists installed'.
      * by right.
Qed.


(** What one call of [fill_project_envs] does to the world, case by
    case: the installer step, when it runs, comes first and leaves the
    file alone; the file is appended to last, and only if the installer
    step returned and there is new content. *)
Lemma fill_project_envs_cases (board_ids project_option : list string)
    (env_prefix : string) (force_download : bool) (w : world) (st : acc) :
  merge_plan (ini w) board_ids project_option env_prefix = inr st →
  ∃ o1 w1 inst,
    events w1 = events w ++ inst ∧ ini w1 = ini w
    ∧ (inst = [] ∧ o1 = Returned ∧ w1 = w
       ∨ ∃ missing, inst = [EvInstall missing] ∧ force_download = true
           ∧ missing ≠ []
           ∧ (∀ p, p ∈ missing ↔ p ∈ used_platforms st ∧ p ∉ installed w)
           ∧ (o1 = Returned ∧ is_Some (cli_platform_install missing (installed w))
              ∨ o1 = Raised (InstallFailure missing)
                ∧ cli_platform_install missing (installed w) = None))
    ∧ (force_download = true → ∀ p, p ∈ used_platforms st →
         p ∈ installed w ∨ ∃ missing, inst = [EvInstall missing] ∧ p ∈ missing)
    ∧ fill_project_envs board_ids project_option env_prefix force_download w =
        match o1 with
        | Raised e => (Raised e, w1)
        | Returned =>
            if bool_decide (content st = []) then (Returned, w1)
            else (Returned,
                  append_ini (Str.join (String "010" "") (content st ++ [""])) w1)
        end.
Proof.
  intros Hplan. unfold fill_project_envs. rewrite Hplan.
  destruct (force_download && negb (bool_decide (used_platforms st = []))) eqn:Hc.
  - apply andb_true_iff in Hc as [-> _].
    destruct (install_dependent_spec (used_platforms st) w)
      as [[Heq Hall]|(missing & Hne & Hmiss & [(inst' & Hok & Heq)|[Hfail Heq]])];
      rewrite Heq.
    + exists Returned, w, []. rewrite app_nil_r.
      split; [done|]. split; [done|]. split; [by left|]. split; [|done].
      intros _ p Hp. left. by apply Hall.
    + exists Returned,
        {| ini := ini w; installed := inst';
           events := events w ++ [EvInstall missing] |}, [EvInstall missing]. simpl.
      split; [done|]. split; [done|]. split; [|split; [|done]].
      * right. exists missing. split_and!; try done. left. split; [done|by eexists].
      * intros _ p Hp. destruct (decide (p ∈ installed w)); [by left|].
        right. exists missing. split; [done|]. by apply Hmiss.
    + exists (Raised (InstallFailure missing)),
        {| ini := ini w; installed := installed w;
           events := events w ++ [EvInstall missing] |}, [EvInstall missing]. simpl.
      split; [done|]. split; [done|]. split; [|split; [|done]].
      * right. exists missing. split_and!; try done. by right.
      * intros _ p Hp. destruct (decide (p ∈ installed w)); [by left|].
        right. exists missing. split; [done|]. by apply Hmiss.
  - exists Returned, w, []. rewrite app_nil_r.
    split; [done|]. split; [done|]. split; [by left|]. split; [|done].
    intros -> p Hp. simpl in Hc. apply negb_false_iff in Hc.
    apply bool_decide_eq_true in Hc. rewrite Hc in Hp. by apply elem_of_nil in Hp.
Qed.

Lemma fill_project_envs_no_content (board_ids project_option : list string)
    (env_prefix : string) (force_download : bool) (w : world) (st : acc) :
  merge_plan (ini w) board_ids project_option env_prefix = inr st →
  content st = [] →
  let '(o, w') :=
    fill_project_envs board_ids project_option env_prefix force_download w in
  ini w' = ini w
  ∧ (events w' = events w ∨ ∃ missing, events w' = events w ++ [EvInstall missing]).
Proof.
  intros Hplan Hnil.
  destruct (fill_project_envs_cases _ _ _ force_download _ _ Hplan)
    as (o1 & w1 & inst & Hev & Hini & Hinst & _ & ->).
  rewrite bool_decide_eq_true_2 by done.
  assert (events w1 = events w ∨ ∃ missing, events w1 = events w ++ [EvInstall missing])
    as Hev'.
  { destruct Hinst as [(-> & _ & ->)|(missing & -> & _)]; [by left|right; by eexists]. }
  by destruct o1.
Qed.

Lemma fill_project_envs_returned (board_ids project_option : list string)
    (env_prefix : string) (force_download : bool) (w w1 : world) :
  fill_project_envs board_ids project_option env_prefix force_download w
    = (Returned, w1) →
  ∃ st, merge_plan (ini w) board_ids project_option env_prefix = inr st.
Proof.
  unfold fill_project_envs.
  destruct (merge_plan _ _ _ _) as [e|st]; [done|]. by exists st.
Qed.

(** The boards in use in a configuration made of [config] followed by
    the sections a merge builds for it, when no override replaces
    [board] and section names stay unique. *)
Lemma configured_boards_extended (config : Config.t)
    (board_ids project_option : list string) (env_prefix : string) :
  let envs := new_envs project_option board_ids (configured_boards config) in
  last_override "board" project_option = None →
  NoDup (Config.sections (config ++ as_sections env_prefix envs)) →
  NoDup (Config.sections config)
  ∧ configured_boards (config ++ as_sections env_prefix envs)
      = configured_boards config ++ envs.*1.
Proof.
  intros envs Hb Hnd.
  assert (NoDup (Config.sections config)) as Hnd0.
  { unfold Config.sections in Hnd. rewrite fmap_app in Hnd.
    by apply NoDup_app in Hnd as [? _]. }
  split; [done|].
  rewrite (configured_boards_omap _ Hnd), omap_app.
  rewrite <- (configured_boards_omap _ Hnd0). f_equal. by apply omap_new_envs.
Qed.

Lemma used_boards_nodup (project_option board_ids used : list string) :
  NoDup used → NoDup (used ++ (new_envs project_option board_ids used).*1).
Proof.
  intros Hnd. apply NoDup_app. split_and!; [done| |apply new_envs_nodup].
  intros x Hx Hin. by apply new_envs_fresh in Hin as [_ ?].
Qed.

(** ** The properties of the merge *)

(** C2. All-or-nothing validation: when the batch contains an identifier
    that the registry does not know, [validate_boards] rejects the batch
    with a message naming the first such identifier, and
    [fill_project_envs] raises the unknown-board error of that same
    identifier and leaves the world as it was: the configuration file is
    not written, however many other identifiers are valid. *)
Theorem unknown_board_aborts_merge (board_ids project_option : list string)
    (env_prefix : string) (force_download : bool) (w : world) :
  (∃ id_, id_ ∈ board_ids ∧ board_config id_ = None) →
  ∃ bad before after,
    board_ids = before ++ bad :: after
    ∧ board_config bad = None
    ∧ Forall (λ id_, is_Some (board_config id_)) before
    ∧ validate_boards board_ids = inl (BadParameter (bad_board_message bad))
    ∧ merge_plan (ini w) board_ids project_option env_prefix = inl (UnknownBoard bad)
    ∧ fill_project_envs board_ids project_option env_prefix force_download w
        = (Raised (UnknownBoard bad), w).
Proof.
  intros Hex. destruct (first_unknown_exists _ Hex) as [bad Hbad].
  destruct (first_unknown_spec _ _ Hbad) as (before & after & Heq & Hnone & Hok).
  exists bad, before, after. split_and!; try done.
  - unfold validate_boards. by rewrite Hbad.
  - by apply merge_plan_unknown.
  - unfold fill_project_envs. by rewrite (merge_plan_unknown _ _ _ _ _ Hbad).
Qed.

(** C4, as the code has it. The installer step runs before the file is
    written, never after: the events of a run are at most one installer
    invocation followed by at most one append to the file. With eager
    installation and a requested platform that is not installed the
    installer is invoked, with the missing platforms; without eager
    installation, or with all platforms installed, it is not. When the
    installer is invoked and raises, the run raises that failure, nothing
    is appended and the file is as it was, so the new sections are not
    persisted. When no installer invocation raises, the run returns and
    appends the new content, if there is any, after the installer step. *)
Theorem install_precedes_write (board_ids project_option : list string)
    (env_prefix : string) (force_download : bool) (w : world) :
  ∃ inst wr,
    let '(o, w') :=
      fill_project_envs board_ids project_option env_prefix force_download w in
    events w' = events w ++ inst ++ wr
    ∧ (inst = [] ∨ ∃ missing, inst = [EvInstall missing] ∧ force_download = true)
    ∧ (wr = [] ∧ ini w' = ini w
       ∨ ∃ text, wr = [EvAppend text] ∧ ini w' = ini w +:+ text ∧ o = Returned)
    ∧ (∀ missing, inst = [EvInstall missing] →
         cli_platform_install missing (installed w) = None →
         o = Raised (InstallFailure missing) ∧ wr = [] ∧ ini w' = ini w)
    ∧ (∀ e, merge_plan (ini w) board_ids project_option env_prefix = inl e →
         o = Raised e ∧ inst = [] ∧ wr = [])
    ∧ (∀ st, merge_plan (ini w) board_ids project_option env_prefix = inr st →
         (force_download = false ∨ (∀ p, p ∈ used_platforms st → p ∈ installed w) →
          inst = [])
         ∧ (force_download = true →
            ∀ p, p ∈ used_platforms st → p ∉ installed w →
            ∃ missing,
              inst = [EvInstall missing]
              ∧ ∀ q, q ∈ missing ↔ q ∈ used_platforms st ∧ q ∉ installed w)
         ∧ ((∀ missing, inst = [EvInstall missing] →
               is_Some (cli_platform_install missing (installed w))) →
            o = Returned
            ∧ wr = if bool_decide (content st = []) then []
                   else [EvAppend (Str.join (String "010" "") (content st ++ [""]))])).
Proof.
  destruct (merge_plan (ini w) board_ids project_option env_prefix) as [e|st] eqn:Hplan.
  - exists [], []. unfold fill_project_envs. rewrite Hplan.
    rewrite !app_nil_r. split_and!; auto.
    + intros ? [=].
    + by intros e' [= <-].
    + intros st [=].
  - destruct (fill_project_envs_cases _ _ _ force_download _ _ Hplan)
      as (o1 & w1 & inst & Hev & Hini & Hinst & Hall & ->).
    destruct Hinst as [(-> & -> & ->)|(missing & -> & Hfd & Hne & Hmiss & Ho1)].
    + assert (force_download = true →
              ∀ p, p ∈ used_platforms st → p ∉ installed w → False) as Hnone.
      { intros Hfd p Hp Hn. destruct (Hall Hfd p Hp) as [?|(m & [=] & _)]. done. }
      exists [],
        (if bool_decide (content st = []) then []
         else [EvAppend (Str.join (String "010" "") (content st ++ [""]))]).
      case_bool_decide as Hnil; simpl; rewrite ?app_nil_r.
      * split; [done|]. split; [by left|]. split; [by left|].
        split; [intros ? [=]|]. split; [intros ? [=]|].
        intros st' [= <-]. split; [done|]. split.
        -- intros Hfd p Hp Hn. destruct (Hnone Hfd p Hp Hn).
        -- intros _. by rewrite bool_decide_eq_true_2.
      * split; [done|]. split; [by left|]. split; [right; by eexists|].
        split; [intros ? [=]|]. split; [intros ? [=]|].
        intros st' [= <-]. split; [done|]. split.
        -- intros Hfd p Hp Hn. destruct (Hnone Hfd p Hp Hn).
        -- intros _. by rewrite bool_decide_eq_false_2.
    + assert (∀ st', (inr st : exn + acc) = inr st' →
                (force_download = false
                 ∨ (∀ p, p ∈ used_platforms st' → p ∈ installed w) →
                 [EvInstall missing] = [])
                ∧ (force_download = true →
                   ∀ p, p ∈ used_platforms st' → p ∉ installed w →
                   ∃ missing',
                     [EvInstall missing] = [EvInstall missing']
                     ∧ ∀ q, q ∈ missing' ↔ q ∈ used_platforms st' ∧ q ∉ installed w))
        as Hinvoked.
      { intros st' [= <-]. split.
        - intros [Hoff|Hhave]; [congruence|]. exfalso.
          destruct missing as [|p missing]; [done|].
          destruct (proj1 (Hmiss p)) as [Hp Hn]; [by left|]. by apply Hn, Hhave.
        - intros _ p Hp Hn. by exists missing. }
      destruct Ho1 as [[-> [inst' Hok]]|[-> Hfail]].
      * exists [EvInstall missing],
          (if bool_decide (content st = []) then []
           else [EvAppend (Str.join (String "010" "") (content st ++ [""]))]).
        case_bool_decide as Hnil; simpl; rewrite ?app_nil_r.
        -- split; [done|]. split; [right; by exists missing|]. split; [by left|].
           split; [intros m [= <-] Hm; congruence|]. split; [intros ? [=]|].
           intros st' Hst'. destruct (Hinvoked st' Hst') as [H1 H2].
           injection Hst' as <-.
           split; [done|]. split; [done|]. intros _.
           by rewrite bool_decide_eq_true_2.
        -- rewrite Hev, Hini, <- (assoc_L (++)).
           split; [done|]. split; [right; by exists missing|].
           split; [right; by eexists|].
           split; [intros m [= <-] Hm; congruence|]. split; [intros ? [=]|].
           intros st' Hst'. destruct (Hinvoked st' Hst') as [H1 H2].
           injection Hst' as <-.
           split; [done|]. split; [done|]. intros _.
           by rewrite bool_decide_eq_false_2.
      * exists [EvInstall missing], []. rewrite app_nil_r.
        split; [done|]. split; [right; by exists missing|]. split; [by left|].
        split; [by intros m [= <-] _|]. split; [intros ? [=]|].
        intros st' Hst'. destruct (Hinvoked st' Hst') as [H1 H2].
        split; [done|]. split; [done|].
        intros Hsome. destruct (Hsome missing eq_refl) as [? Hs]. congruence.
Qed.

Lemma dict_get_elem (k v : string) (d : Dict.t) :
  Dict.get k d = Some v → (k, v) ∈ Dict.items d.
Proof.
  unfold Dict.items. induction d as [|[k' v'] d IH]; simpl; [done|].
  destruct (decide (k' = k)) as [->|Hne].
  - intros [= ->]. by left.
  - intros H. right. by apply IH.
Qed.

Lemma rendered_option_in_content (env_prefix : string)
    (envs : list (string * Dict.t)) (id_ : string) (envopts : Dict.t) (k v : string) :
  (id_, envopts) ∈ envs → Dict.get k envopts = Some v →
  k +:+ " = " +:+ v
    ∈ flat_map (λ '(id_, envopts), render_env env_prefix id_ envopts) envs.
Proof.
  intros Hin Hget. apply list_elem_of_In, in_flat_map.
  exists (id_, envopts). split; [by apply list_elem_of_In|].
  apply list_elem_of_In. unfold render_env. apply elem_of_app. right.
  apply list_elem_of_fmap. exists (k, v). split; [done|]. by apply dict_get_elem.
Qed.

(** C5, as the code has it. When a merge produces no new section, every
    requested board is already configured, the file keeps its text (so
    the configuration read from it is the same) and no append happens;
    the only event the run can add is an installer invocation. The
    platform list is not empty then: it holds the platform of every
    requested board, one entry per request. *)
Theorem no_new_sections_no_write (board_ids project_option : list string)
    (env_prefix : string) (force_download : bool) (w : world) (st : acc) :
  merge_plan (ini w) board_ids project_option env_prefix = inr st →
  content st = [] →
  (∀ id_, id_ ∈ board_ids → id_ ∈ configured_boards (load_project_config (ini w)))
  ∧ used_platforms st = requested_platforms board_ids
  ∧ length (used_platforms st) = length board_ids
  ∧ let '(o, w') :=
      fill_project_envs board_ids project_option env_prefix force_download w in
    ini w' = ini w
    ∧ load_project_config (ini w') = load_project_config (ini w)
    ∧ (events w' = events w ∨ ∃ missing, events w' = events w ++ [EvInstall missing]).
Proof.
  intros Hplan Hnil.
  destruct (merge_plan_inr _ _ _ _ _ Hplan) as (Hk & Hc & Hu & Hp).
  rewrite Hnil in Hc. symmetry in Hc. apply content_nil_new_envs in Hc.
  split; [|split; [done|split]].
  - intros id_ Hin.
    pose proof (new_envs_covers project_option _
                  (configured_boards (load_project_config (ini w))) _ Hk Hin) as H.
    by rewrite Hc, app_nil_r in H.
  - rewrite Hp. by apply requested_platforms_length.
  - pose proof (fill_project_envs_no_content _ _ _ force_download _ _ Hplan Hnil) as H.
    destruct (fill_project_envs _ _ _ _ _) as [o w']. destruct H as [Hini Hev].
    by rewrite Hini.
Qed.

(** C6. Platform accumulation: after the loop the platform list holds the
    platform of every requested board, one entry per request, whether or
    not the board already had a section; and with eager installation
    each of these platforms is either installed already or in the list
    the installer is invoked with. *)
Theorem platforms_accumulate (board_ids project_option : list string)
    (env_prefix : string) (w : world) (st : acc) :
  merge_plan (ini w) board_ids project_option env_prefix = inr st →
  used_platforms st = requested_platforms board_ids
  ∧ length (used_platforms st) = length board_ids
  ∧ ∀ id_ bc, id_ ∈ board_ids → board_config id_ = Some bc →
      platform bc ∈ used_platforms st
      ∧ let '(o, w') :=
          fill_project_envs board_ids project_option env_prefix true w in
        platform bc ∈ installed w
        ∨ ∃ missing rest,
            events w' = events w ++ EvInstall missing :: rest ∧ platform bc ∈ missing.
Proof.
  intros Hplan.
  destruct (merge_plan_inr _ _ _ _ _ Hplan) as (Hk & _ & _ & Hp).
  split; [done|]. split; [rewrite Hp; by apply requested_platforms_length|].
  intros id_ bc Hin Hbc.
  assert (platform bc ∈ used_platforms st) as Hmem
    by (rewrite Hp; by eapply requested_platforms_spec).
  split; [done|].
  destruct (fill_project_envs_cases _ _ _ true _ _ Hplan)
    as (o1 & w1 & inst & Hev & _ & _ & Hall & ->).
  destruct (Hall eq_refl _ Hmem) as [Hi|(missing & -> & Hm)].
  - destruct o1; [case_bool_decide|]; by left.
  - destruct o1; [case_bool_decide|]; right; exists missing.
    + exists []. by rewrite Hev.
    + exists [EvAppend (Str.join (String "010" "") (content st ++ [""]))].
      simpl. by rewrite Hev, <- (assoc_L (++)).
    + exists []. by rewrite Hev.
Qed.

(** C10. Every section a merge creates defines [platform] and [board]:
    the options of each new section have both keys, whatever the
    overrides are, and the lines [platform = ...] and [board = ...] are
    part of the appended content. *)
Theorem new_sections_define_platform_and_board (text : string)
    (board_ids project_option : list string) (env_prefix : string) (st : acc) :
  merge_plan text board_ids project_option env_prefix = inr st →
  let envs := new_envs project_option board_ids
                (configured_boards (load_project_config text)) in
  content st = flat_map (λ '(id_, envopts), render_env env_prefix id_ envopts) envs
  ∧ ∀ id_ envopts, (id_, envopts) ∈ envs →
      ∃ p b, Dict.get "platform" envopts = Some p
             ∧ Dict.get "board" envopts = Some b
             ∧ "platform" +:+ " = " +:+ p ∈ content st
             ∧ "board" +:+ " = " +:+ b ∈ content st.
Proof.
  intros Hplan envs.
  destruct (merge_plan_inr _ _ _ _ _ Hplan) as (_ & Hc & _ & _).
  split; [done|]. intros id_ envopts Hin.
  destruct (new_envs_envopts _ _ _ _ _ Hin) as (bc & Hbc & Heq).
  assert (∃ p, Dict.get "platform" envopts = Some p) as [p Hp].
  { rewrite Heq. unfold build_envopts. rewrite get_after_overrides, default_platform.
    destruct (last_override "platform" project_option); by eexists. }
  assert (∃ b, Dict.get "board" envopts = Some b) as [b Hb].
  { rewrite Heq. unfold build_envopts. rewrite get_after_overrides, default_board.
    destruct (last_override "board" project_option); by eexists. }
  exists p, b. rewrite Hc. split_and!; try done.
  - by eapply rendered_option_in_content.
  - by eapply rendered_option_in_content.
Qed.


Lemma last_override_none (k : string) (project_option : list string) :
  (∀ item v, item ∈ project_option → override_of item ≠ Some (k, v)) →
  last_override k project_option = None.
Proof.
  induction project_option as [|item rest IH]; intros H; simpl; [done|].
  rewrite IH by (intros i v Hin; apply H; by right).
  destruct (override_of item) as [[k' v]|] eqn:E; [|done].
  destruct (decide (k' = k)) as [->|]; [|done].
  exfalso. by apply (H item v); [left|].
Qed.

Lemma last_override_later (k v : string) (before after : list string) (item : string) :
  override_of item = Some (k, v) →
  (∀ item' v', item' ∈ after → override_of item' ≠ Some (k, v')) →
  last_override k (before ++ item :: after) = Some v.
Proof.
  intros Hitem Hafter. induction before as [|x before IH]; simpl.
  - rewrite last_override_none by done. rewrite Hitem. by rewrite decide_True.
  - by rewrite IH.
Qed.

Lemma contains_append (c : ascii) (s t : string) :
  Str.contains c (s +:+ t) = Str.contains c s || Str.contains c t.
Proof.
  induction s as [|a s IH]; [done|]. rewrite app_cons. simpl.
  by destruct (Ascii.eqb a c).
Qed.

Lemma all_space_no_equals (s : string) :
  Str.all_space s = true → Str.contains "="%char s = false.
Proof.
  induction s as [|a s IH]; simpl; [done|].
  intros [Ha Hs]%andb_true_iff. rewrite (IH Hs).
  destruct (Ascii.eqb a "=") eqn:E; [|done].
  apply Ascii.eqb_eq in E as ->. done.
Qed.

Lemma strip_keeps_equals (s : string) :
  Str.contains "="%char (Str.strip s) = Str.contains "="%char s.
Proof.
  destruct (strip_decompose s) as (l & r & Hs & Hl & Hr).
  rewrite Hs at 2. rewrite !contains_append.
  rewrite (all_space_no_equals l Hl), (all_space_no_equals r Hr).
  simpl. by rewrite orb_false_r.
Qed.

(** C7. Overrides take precedence over the registry defaults: the
    options of every new section are the defaults ([platform] the
    resolved platform, [board] the identifier, [framework] the first
    resolved framework when there is one, nothing else) with every
    override applied afterwards, so a key that some override sets has
    the value of the last such override, and every other key has its
    default. *)
Theorem overrides_take_precedence (text : string)
    (board_ids project_option : list string) (env_prefix : string) (st : acc) :
  merge_plan text board_ids project_option env_prefix = inr st →
  let envs := new_envs project_option board_ids
                (configured_boards (load_project_config text)) in
  content st = flat_map (λ '(id_, envopts), render_env env_prefix id_ envopts) envs
  ∧ ∀ id_ envopts, (id_, envopts) ∈ envs →
      ∃ bc, board_config id_ = Some bc
        ∧ envopts = foldl set_project_option (default_envopts bc id_) project_option
        ∧ Dict.get "platform" (default_envopts bc id_) = Some (platform bc)
        ∧ Dict.get "board" (default_envopts bc id_) = Some id_
        ∧ Dict.get "framework" (default_envopts bc id_) = frameworks bc ≫= head
        ∧ (∀ k, k ≠ "platform" → k ≠ "board" → k ≠ "framework" →
             Dict.get k (default_envopts bc id_) = None)
        ∧ (∀ k v, last_override k project_option = Some v →
             Dict.get k envopts = Some v)
        ∧ (∀ k, last_override k project_option = None →
             Dict.get k envopts = Dict.get k (default_envopts bc id_))
        ∧ (∀ before item after k v,
             project_option = before ++ item :: after →
             override_of item = Some (k, v) →
             (∀ item' v', item' ∈ after → override_of item' ≠ Some (k, v')) →
             Dict.get k envopts = Some v).
Proof.
  intros Hplan envs.
  destruct (merge_plan_inr _ _ _ _ _ Hplan) as (_ & Hc & _ & _).
  split; [done|]. intros id_ envopts Hin.
  destruct (new_envs_envopts _ _ _ _ _ Hin) as (bc & Hbc & ->).
  exists bc. unfold build_envopts. split_and!; try done.
  - apply default_platform.
  - apply default_board.
  - apply default_framework.
  - apply default_other.
  - intros k v Hk. by rewrite get_after_overrides, Hk.
  - intros k Hk. by rewrite get_after_overrides, Hk.
  - intros before item after k v -> Hitem Hafter.
    by rewrite get_after_overrides, (last_override_later k v before after item).
Qed.

(** C8. Override parsing: a string without ['='] changes nothing and
    raises nothing (the list behaves as the list without such strings);
    a string with ['='] splits in exactly two parts and sets the trimmed
    key to the trimmed value; and of several strings with the same key
    the last one decides the value, in every new section. *)
Theorem overrides_parsed (project_option : list string) :
  (∀ d item, Str.contains "="%char item = false → set_project_option d item = d)
  ∧ (∀ d, foldl set_project_option d project_option =
          foldl set_project_option d
            (filter (λ item, Str.contains "="%char item = true) project_option))
  ∧ (∀ d item, Str.contains "="%char item = true →
       ∃ name value,
         Str.split1 "="%char item = [name; value]
         ∧ item = name +:+ String "=" value
         ∧ override_of item = Some (Str.strip name, Str.strip value)
         ∧ set_project_option d item = Dict.set (Str.strip name) (Str.strip value) d
         ∧ Str.trims_to name (Str.strip name) ∧ Str.trimmed (Str.strip name)
         ∧ Str.trims_to value (Str.strip value) ∧ Str.trimmed (Str.strip value))
  ∧ (∀ d before item after k v,
       project_option = before ++ item :: after →
       override_of item = Some (k, v) →
       (∀ item' v', item' ∈ after → override_of item' ≠ Some (k, v')) →
       Dict.get k (foldl set_project_option d project_option) = Some v)
  ∧ (∀ board_ids used id_ envopts before item after k v,
       (id_, envopts) ∈ new_envs project_option board_ids used →
       project_option = before ++ item :: after →
       override_of item = Some (k, v) →
       (∀ item' v', item' ∈ after → override_of item' ≠ Some (k, v')) →
       Dict.get k envopts = Some v).
Proof.
  split_and!.
  - intros d item H. by rewrite set_project_option_override, override_of_absent.
  - apply overrides_skip_malformed.
  - intros d item H. destruct (split1_contains _ _ H) as (name & value & Hs & -> & Hn).
    exists name, value.
    assert (override_of (name +:+ String "=" value)
            = Some (Str.strip name, Str.strip value)) as Ho by by apply override_of_split.
    split_and!; try done.
    + by rewrite set_project_option_override, Ho.
    + apply strip_decompose.
    + apply strip_trimmed.
    + apply strip_decompose.
    + apply strip_trimmed.
  - intros d before item after k v -> Hitem Hafter.
    by rewrite get_after_overrides, (last_override_later k v before after item).
  - intros board_ids used id_ envopts before item after k v Hin -> Hitem Hafter.
    destruct (new_envs_envopts _ _ _ _ _ Hin) as (bc & _ & ->). unfold build_envopts.
    by rewrite get_after_overrides, (last_override_later k v before after item).
Qed.

(** C9. An override is split at its first ['='] only: when the text
    before the first ['='] is [name], the key is [name] trimmed and the
    value is all of the rest trimmed, whatever further ['='] it holds;
    trimming removes whitespace at the two ends and nothing else, so the
    value keeps its ['='] characters and is kept as it is when it has no
    whitespace at its ends. *)
Theorem override_split_at_first_equals (name value : string) (d : Dict.t) :
  Str.contains "="%char name = false →
  Str.split1 "="%char (name +:+ String "=" value) = [name; value]
  ∧ set_project_option d (name +:+ String "=" value)
      = Dict.set (Str.strip name) (Str.strip value) d
  ∧ Dict.get (Str.strip name) (set_project_option d (name +:+ String "=" value))
      = Some (Str.strip value)
  ∧ Str.trims_to value (Str.strip value)
  ∧ Str.contains "="%char (Str.strip value) = Str.contains "="%char value
  ∧ (Str.trimmed value → Str.strip value = value).
Proof.
  intros Hname.
  assert (set_project_option d (name +:+ String "=" value)
          = Dict.set (Str.strip name) (Str.strip value) d) as Hset
    by by rewrite set_project_option_override, override_of_split.
  split_and!.
  - by apply split1_first.
  - done.
  - rewrite Hset. apply dict_get_set_eq.
  - apply strip_decompose.
  - apply strip_keeps_equals.
  - intros [Hf Hl]. by apply strip_id.
Qed.


(** C1, as the code has it. Re-running a merge with the same arguments
    is a no-op provided no override replaces the [board] option: when
    the configuration read back from the file consists of the former
    sections followed by the sections the first run appended, all under
    distinct names, the second run produces no new section, appends
    nothing, and leaves the text of the file as the first run left it. *)
Theorem merge_idempotent (board_ids project_option : list string)
    (env_prefix : string) (force_download force_download' : bool) (w w1 : world) :
  fill_project_envs board_ids project_option env_prefix force_download w
    = (Returned, w1) →
  last_override "board" project_option = None →
  load_project_config (ini w1)
    = load_project_config (ini w)
        ++ appended_sections (ini w) board_ids project_option env_prefix →
  NoDup (Config.sections (load_project_config (ini w1))) →
  ∃ st2,
    merge_plan (ini w1) board_ids project_option env_prefix = inr st2
    ∧ content st2 = []
    ∧ new_envs project_option board_ids
        (configured_boards (load_project_config (ini w1))) = []
    ∧ let '(o2, w2) :=
        fill_project_envs board_ids project_option env_prefix force_download' w1 in
      ini w2 = ini w1
      ∧ (events w2 = events w1
         ∨ ∃ missing, events w2 = events w1 ++ [EvInstall missing]).
Proof.
  intros Hrun Hb Hread Hnd.
  destruct (fill_project_envs_returned _ _ _ _ _ _ Hrun) as [st Hplan].
  destruct (merge_plan_inr _ _ _ _ _ Hplan) as (Hk & _ & _ & _).
  unfold appended_sections in Hread. rewrite Hread in Hnd.
  destruct (configured_boards_extended _ _ _ _ Hb Hnd) as [_ Hused].
  assert (new_envs project_option board_ids
            (configured_boards (load_project_config (ini w1))) = []) as Hnone.
  { apply new_envs_none. intros id_ Hin. rewrite Hread, Hused.
    by apply new_envs_covers. }
  assert (merge_plan (ini w1) board_ids project_option env_prefix
          = inr {| content := [];
                   used_boards := configured_boards (load_project_config (ini w1));
                   used_platforms := requested_platforms board_ids |}) as Hplan2.
  { unfold merge_plan. rewrite (board_loop_known _ _ _ _ Hk). simpl.
    by rewrite Hnone, app_nil_r. }
  eexists. split; [exact Hplan2|]. split; [done|]. split; [done|].
  by apply (fill_project_envs_no_content _ _ _ force_download' _ _ Hplan2).
Qed.

(** C3, as the code has it. Within one batch every identifier gets at
    most one new section: exactly one when it is requested, however
    often, and not yet configured, none when it is configured. When the
    boards of the environment sections were pairwise distinct before the
    merge and no override replaces the [board] option, they are pairwise
    distinct in the configuration read back after it (the former sections
    followed by the appended ones, all under distinct names), so the
    property carries over from one invocation to the next. *)
Theorem merge_keeps_boards_distinct (board_ids project_option : list string)
    (env_prefix : string) (w : world) (st : acc) :
  merge_plan (ini w) board_ids project_option env_prefix = inr st →
  let used := configured_boards (load_project_config (ini w)) in
  let envs := new_envs project_option board_ids used in
  content st = flat_map (λ '(id_, envopts), render_env env_prefix id_ envopts) envs
  ∧ (∀ id_, length (filter (λ x, x = id_) envs.*1) ≤ 1)
  ∧ (∀ id_, id_ ∈ board_ids → id_ ∉ used →
       length (filter (λ x, x = id_) envs.*1) = 1)
  ∧ (∀ id_, id_ ∈ used → length (filter (λ x, x = id_) envs.*1) = 0)
  ∧ (∀ force_download w1,
       fill_project_envs board_ids project_option env_prefix force_download w
         = (Returned, w1) →
       last_override "board" project_option = None →
       load_project_config (ini w1)
         = load_project_config (ini w)
             ++ appended_sections (ini w) board_ids project_option env_prefix →
       NoDup (Config.sections (load_project_config (ini w1))) →
       (∀ b, length (envs_with_board (load_project_config (ini w)) b) ≤ 1) →
       ∀ b, length (envs_with_board (load_project_config (ini w1)) b) ≤ 1).
Proof.
  intros Hplan used envs.
  destruct (merge_plan_inr _ _ _ _ _ Hplan) as (Hk & Hc & _ & _).
  pose proof (new_envs_nodup project_option board_ids used) as Hnd.
  split; [done|]. split; [by apply nodup_count|]. split; [|split].
  - intros id_ Hin Hfresh.
    pose proof (proj1 (nodup_count _) Hnd id_) as Hle.
    assert (id_ ∈ envs.*1) as Hmem.
    { pose proof (new_envs_covers project_option _ used _ Hk Hin) as H.
      apply elem_of_app in H as [?|?]; done. }
    assert (id_ ∈ filter (λ x, x = id_) envs.*1) as Hf
      by (by apply list_elem_of_filter).
    fold envs in Hle. destruct (filter (λ x, x = id_) envs.*1);
      [by apply elem_of_nil in Hf|simpl in *; lia].
  - intros id_ Hin. rewrite filter_eq_notin; [done|].
    intros Hmem. by apply new_envs_fresh in Hmem as [_ ?].
  - intros force_download w1 _ Hb Hread Hnames Hbefore b.
    unfold appended_sections in Hread. clear Hc Hnd. subst envs used.
    rewrite Hread in Hnames |- *.
    destruct (configured_boards_extended _ _ _ _ Hb Hnames) as [Hnames0 Hused].
    rewrite (envs_with_board_count _ _ Hnames).
    rewrite <- (configured_boards_omap _ Hnames), Hused.
    apply nodup_count. apply used_boards_nodup. apply nodup_count. intros b'.
    rewrite (configured_boards_omap _ Hnames0).
    rewrite <- (envs_with_board_count _ _ Hnames0). apply Hbefore.
Qed.


(** ** Further properties of the merge and of the installer step *)




Lemma new_envs_sublist (project_option board_ids used : list string) :
  sublist (new_envs project_option board_ids used).*1 board_ids.
Proof.
  revert used. induction board_ids as [|x rest IH]; intros used; simpl.
  - constructor.
  - destruct (board_config x) as [bc|]; [|apply sublist_nil_l].
    case_bool_decide; [by apply sublist_cons|]. simpl. by apply sublist_skip.
Qed.

Lemma header_in_content (env_prefix : string) (envs : list (string * Dict.t))
    (id_ : string) :
  id_ ∈ envs.*1 →
  "[" +:+ section_name env_prefix id_ +:+ "]"
    ∈ flat_map (λ '(id_, envopts), render_env env_prefix id_ envopts) envs.
Proof.
  intros Hin. apply list_elem_of_fmap in Hin as ([id' envopts] & -> & Hin).
  apply list_elem_of_In, in_flat_map. exists (id', envopts).
  split; [by apply list_elem_of_In|]. apply list_elem_of_In.
  unfold render_env. apply elem_of_app. left. right. by left.
Qed.

(** X2. The boards that get a new section are exactly the requested ones
    that no environment section names yet, each once, in the order of the
    request, and the header line [[env:<prefix><id>]] of each is part of
    the appended content. Section names are never looked at: this also
    holds when the file already has a section of that name. *)
Theorem new_sections_follow_request (text : string)
    (board_ids project_option : list string) (env_prefix : string) (st : acc) :
  merge_plan text board_ids project_option env_prefix = inr st →
  let used := configured_boards (load_project_config text) in
  let envs := new_envs project_option board_ids used in
  sublist envs.*1 board_ids
  ∧ NoDup envs.*1
  ∧ (∀ id_, id_ ∈ envs.*1 ↔ id_ ∈ board_ids ∧ id_ ∉ used)
  ∧ used_boards st = used ++ envs.*1
  ∧ (∀ id_, id_ ∈ board_ids → id_ ∉ used →
       "[" +:+ section_name env_prefix id_ +:+ "]" ∈ content st).
Proof.
  intros Hplan used envs.
  destruct (merge_plan_inr _ _ _ _ _ Hplan) as (Hk & Hc & Hu & _).
  assert (∀ id_, id_ ∈ board_ids → id_ ∉ used → id_ ∈ envs.*1) as Hnew.
  { intros id_ Hin Hfresh.
    pose proof (new_envs_covers project_option _ used _ Hk Hin) as H.
    apply elem_of_app in H as [?|?]; done. }
  split; [apply new_envs_sublist|]. split; [apply new_envs_nodup|].
  split; [|split; [done|]].
  - intros id_. split; [apply new_envs_fresh|]. intros [??]. by apply Hnew.
  - intros id_ Hin Hfresh. rewrite Hc. apply header_in_content. by apply Hnew.
Qed.



(** X4. [_install_dependent_platforms] hands the installer exactly the
    requested platforms that are not installed, each once, and does so at
    most once; it never touches the configuration file. When every
    requested platform is installed it does nothing at all. When the
    installer raises, the failure is passed on and the installed
    platforms stay as they were. *)
Theorem installer_gets_missing_platforms (platforms : list string) (w : world) :
  let '(o, w') := _install_dependent_platforms platforms w in
  ini w' = ini w
  ∧ ((∀ p, p ∈ platforms → p ∈ installed w) ∧ o = Returned ∧ w' = w
     ∨ ∃ missing,
         events w' = events w ++ [EvInstall missing]
         ∧ missing ≠ [] ∧ NoDup missing
         ∧ (∀ p, p ∈ missing ↔ p ∈ platforms ∧ p ∉ installed w)
         ∧ match cli_platform_install missing (installed w) with
           | Some installed' => o = Returned ∧ installed w' = installed'
           | None => o = Raised (InstallFailure missing) ∧ installed w' = installed w
           end).
Proof.
  unfold _install_dependent_platforms. case_bool_decide as Hsub.
  - split; [done|]. left. split; [|done]. intros p Hp.
    assert (p ∈ (list_to_set (installed w) : gset string)) as Hin
      by (apply Hsub; by apply elem_of_list_to_set).
    by apply elem_of_list_to_set in Hin.
  - set (missing := elements ((list_to_set platforms : gset string)
                              ∖ list_to_set (installed w))).
    assert (∀ p, p ∈ missing ↔ p ∈ platforms ∧ p ∉ installed w) as Hmiss.
    { intros p. unfold missing.
      by rewrite elem_of_elements, elem_of_difference, !elem_of_list_to_set. }
    assert (missing ≠ []) as Hne.
    { intros Hnil. apply Hsub. intros p Hp.
      destruct (decide (p ∈ (list_to_set (installed w) : gset string))) as [|Hn]; [done|].
      assert (p ∈ missing) as Hel.
      { apply Hmiss. apply elem_of_list_to_set in Hp. split; [done|].
        intros ?. apply Hn. by apply elem_of_list_to_set. }
      rewrite Hnil in Hel. by apply elem_of_nil in Hel. }
    destruct (cli_platform_install missing (installed w)) as [installed'|] eqn:E;
      simpl; (split; [done|]); right; exists missing; rewrite E;
      (split_and!; try done; apply NoDup_elements).
Qed.


(** ** Properties of [get_first_board] and of the command *)

Lemma has_option_get (config : Config.t) (section opt : string) :
  Config.has_option config section opt = true
  ↔ is_Some (Config.get config section opt).
Proof.
  unfold Config.has_option, Config.get, Dict.has_key.
  destruct (Config.options section config) as [opts|].
  - apply bool_decide_eq_true.
  - split; [done|]. by intros [? [=]].
Qed.

Lemma first_board_scan (config : Config.t) (secs : list string) :
  first_board config secs = head (scan_sections config secs []).
Proof.
  induction secs as [|section rest IH]; [done|]. simpl.
  destruct (Str.startswith section "env:"); simpl; [|exact IH].
  destruct (Config.has_option config section "board") eqn:Hopt; simpl; [|exact IH].
  apply has_option_get in Hopt as [b Hb]. rewrite Hb.
  by rewrite scan_sections_acc.
Qed.

(** X6. [get_first_board] and the merge agree on what is configured: the
    board it returns is the first of the boards that [fill_project_envs]
    treats as already in use, and it returns nothing exactly when the
    merge finds no board in use. *)
Theorem get_first_board_is_first_used (text : string) :
  get_first_board text = head (configured_boards (load_project_config text))
  ∧ (get_first_board text = None
     ↔ configured_boards (load_project_config text) = []).
Proof.
  assert (get_first_board text = head (configured_boards (load_project_config text)))
    as H by apply first_board_scan.
  split; [done|]. rewrite H.
  by destruct (configured_boards (load_project_config text)).
Qed.

Lemma first_board_some (config : Config.t) (secs : list string) (b : string) :
  first_board config secs = Some b ↔
  ∃ before section after,
    secs = before ++ section :: after
    ∧ Str.startswith section "env:" = true
    ∧ Config.get config section "board" = Some b
    ∧ ∀ s, s ∈ before →
        Str.startswith s "env:" = false ∨ Config.get config s "board" = None.
Proof.
  induction secs as [|section rest IH]; simpl.
  - split; [done|]. intros (before & ? & ? & H & _). by destruct before.
  - destruct (Str.startswith section "env:") eqn:Hs; simpl.
    + destruct (Config.has_option config section "board") eqn:Hopt.
      * split.
        -- intros Hget. exists [], section, rest. split_and!; try done.
           intros s Hin. by apply elem_of_nil in Hin.
        -- intros (before & s & after & Heq & Hs' & Hget & Hbefore).
           destruct before as [|x before]; simpl in Heq; injection Heq as -> ?; [done|].
           destruct (Hbefore x) as [Hx|Hx]; [by left|congruence|].
           apply has_option_get in Hopt as [? Hb]. congruence.
      * assert (Config.get config section "board" = None) as Hnone.
        { destruct (Config.get config section "board") eqn:E; [|done].
          assert (Config.has_option config section "board" = true) as Hyes
            by (apply has_option_get; by rewrite E).
          congruence. }
        rewrite IH. split.
        -- intros (before & s & after & -> & Hs' & Hget & Hbefore).
           exists (section :: before), s, after. split_and!; try done.
           intros x [->|Hin]%elem_of_cons; [by right|by apply Hbefore].
        -- intros (before & s & after & Heq & Hs' & Hget & Hbefore).
           destruct before as [|x before]; simpl in Heq; injection Heq as -> ?;
             [congruence|].
           exists before, s, after. split_and!; try done.
           intros y Hy. apply Hbefore. by right.
    + rewrite IH. split.
      * intros (before & s & after & -> & Hs' & Hget & Hbefore).
        exists (section :: before), s, after. split_and!; try done.
        intros x [->|Hin]%elem_of_cons; [by left|by apply Hbefore].
      * intros (before & s & after & Heq & Hs' & Hget & Hbefore).
        destruct before as [|x before]; simpl in Heq; injection Heq as -> ?;
          [congruence|].
        exists before, s, after. split_and!; try done.
        intros y Hy. apply Hbefore. by right.
Qed.

(** X7. [get_first_board] returns the [board] value of the first section,
    in file order, whose name starts with [env:] and that has a [board]
    option: sections of other names, and environment sections without a
    board, are passed over; and it returns nothing only when no section
    qualifies. *)
Theorem get_first_board_spec (text : string) :
  let config := load_project_config text in
  (∀ b, get_first_board text = Some b ↔
     ∃ before section after,
       Config.sections config = before ++ section :: after
       ∧ Str.startswith section "env:" = true
       ∧ Config.get config section "board" = Some b
       ∧ ∀ s, s ∈ before →
           Str.startswith s "env:" = false ∨ Config.get config s "board" = None)
  ∧ (get_first_board text = None ↔
     ∀ s, s ∈ Config.sections config →
       Str.startswith s "env:" = false ∨ Config.get config s "board" = None).
Proof.
  intros config. split; [intros b; apply first_board_some|].
  unfold get_first_board. fold config.
  induction (Config.sections config) as [|section rest IH]; simpl.
  - split; [|done]. intros _ s Hin. by apply elem_of_nil in Hin.
  - destruct (Str.startswith section "env:") eqn:Hs; simpl.
    + destruct (Config.has_option config section "board") eqn:Hopt.
      * apply has_option_get in Hopt as [b Hb]. rewrite Hb. split; [done|].
        intros H. destruct (H section) as [?|?]; [by left|congruence|congruence].
      * rewrite IH. split.
        -- intros H s [->|Hin]%elem_of_cons; [|by apply H]. right.
           destruct (Config.get config section "board") eqn:E; [|done].
           assert (Config.has_option config section "board" = true) as H'
             by (apply has_option_get; by rewrite E).
           congruence.
        -- intros H s Hin. apply H. by right.
    + rewrite IH. split.
      * intros H s [->|Hin]%elem_of_cons; [by left|by apply H].
      * intros H s Hin. apply H. by right.
Qed.


(** X8. The command raises [BoardNotDefined] in one situation only: an
    IDE is asked for, no board is given on the command line, and the
    project has no first board, or has one whose value is the empty
    string (an empty [board] value counts as no board here, although the
    merge counts it as a board in use). The world is then as it was. *)
Theorem cli_board_not_defined (board project_option : list string)
    (ide : option string) (env_prefix : string) (w : world) :
  ((cli board project_option ide env_prefix w).1 = CliBoardNotDefined
   ↔ (∃ ide_, ide = Some ide_ ∧ ide_ ≠ "")
     ∧ board = []
     ∧ (get_first_board (ini w) = None ∨ get_first_board (ini w) = Some ""))
  ∧ ((cli board project_option ide env_prefix w).1 = CliBoardNotDefined →
     (cli board project_option ide env_prefix w).2 = w).
Proof.
  unfold cli. destruct board as [|b0 rest].
  - rewrite bool_decide_eq_false_2 by (by intros H; apply H).
    destruct ide as [ide_|]; simpl.
    + case_bool_decide as Hide; simpl.
      * destruct (get_first_board (ini w)) as [b|] eqn:Hb; simpl.
        -- case_bool_decide as Hempty; simpl.
           ++ split; [|done]. split; [done|].
              intros (_ & _ & [?|[= ->]]); done.
           ++ split; [|done]. split; [|done]. intros _.
              split; [by exists ide_|]. split; [done|]. right.
              destruct (decide (b = "")) as [->|?]; [done|]. by destruct Hempty.
        -- split; [|done]. split; [|done]. intros _.
           split; [by exists ide_|]. split; [done|by left].
      * split; [|done]. split; [done|]. intros ([i [[= <-] Hi]] & _).
        destruct (decide (ide_ = "")) as [->|?]; [done|]. by destruct Hide.
    + split; [|done]. split; [done|]. by intros ([? [[=] _]] & _).
  - rewrite bool_decide_eq_true_2 by done.
    destruct (fill_project_envs _ _ _ _ _) as [[|e] w1]; simpl.
    + destruct ide as [ide_|]; simpl.
      * case_bool_decide; simpl; (split; [|done]); split; try done;
          by intros (_ & [=] & _).
      * split; [|done]. split; [done|]. by intros (_ & [=] & _).
    + split; [|done]. split; [done|]. by intros (_ & [=] & _).
Qed.

(** X9. For which board the IDE project is generated: the command ends
    with the generator called for [(ide, b)] exactly when an IDE is asked
    for and either [b] is the first board given on the command line and
    the merge of the given boards, run with eager installation, returned;
    or no board is given and [b], not empty, is the first board the
    project configures, in which case nothing is merged or installed. *)
Theorem cli_generates_for (board project_option : list string)
    (ide : option string) (env_prefix : string) (w w' : world) (ide_ b : string) :
  cli board project_option ide env_prefix w = (CliReturned (Some (ide_, b)), w')
  ↔ ide = Some ide_ ∧ ide_ ≠ ""
    ∧ ((∃ rest, board = b :: rest
          ∧ fill_project_envs board project_option env_prefix true w = (Returned, w'))
       ∨ (board = [] ∧ w' = w ∧ b ≠ ""
          ∧ head (configured_boards (load_project_config (ini w))) = Some b)).
Proof.
  assert (head (configured_boards (load_project_config (ini w)))
          = get_first_board (ini w)) as -> by (symmetry; apply first_board_scan).
  unfold cli. destruct board as [|b0 rest].
  - rewrite bool_decide_eq_false_2 by (by intros H; apply H).
    destruct ide as [i|]; simpl.
    + case_bool_decide as Hide; simpl.
      * destruct (get_first_board (ini w)) as [b'|] eqn:Hb; simpl.
        -- case_bool_decide as Hempty; simpl.
           ++ split.
              ** intros [= -> -> ->]. split; [done|]. split; [done|]. by right.
              ** intros ([= ->] & _ & [(? & [=] & _)|(_ & -> & _ & [= ->])]). done.
           ++ split; [done|].
              intros (_ & _ & [(? & [=] & _)|(_ & _ & Hne & [= ->])]).
              destruct Hempty. done.
        -- split; [done|]. by intros (_ & _ & [(? & [=] & _)|(_ & _ & _ & [=])]).
      * split; [done|]. intros ([= ->] & Hne & _). by destruct Hide.
    + split; [done|]. by intros ([=] & _).
  - rewrite bool_decide_eq_true_2 by done.
    destruct ide as [i|]; simpl.
    + change (bool_decide (is_Some (Some i))) with true.
      destruct (fill_project_envs _ _ _ true _) as [[|e] w1] eqn:Hrun; simpl.
      * case_bool_decide as Hide; simpl.
        -- split.
           ++ intros [= -> -> ->]. split; [done|]. split; [done|]. left. by exists rest.
           ++ intros ([= ->] & _ & [(r & [= -> ->] & [= ->])|([=] & _)]). done.
        -- split; [done|]. intros ([= ->] & Hne & _). by destruct Hide.
      * split; [done|]. by intros (_ & _ & [(r & _ & [=])|([=] & _)]).
    + split; [|by intros ([=] & _)].
      destruct (fill_project_envs _ _ _ _ _) as [[|e] w1]; done.
Qed.

Lemma new_envs_head (project_option board_ids : list string) :
  first_unknown board_ids = None →
  head (new_envs project_option board_ids []).*1 = head board_ids.
Proof.
  destruct board_ids as [|x rest]; [done|]. simpl.
  destruct (board_config x) as [bc|]; [|done]. intros _.
  done.
Qed.

(** X10. The first board of a project is stable under merges: when no
    override replaces the [board] option and the file reads back as the
    former sections followed by the appended ones under distinct names,
    [get_first_board] after a merge is the first board configured before
    it, or, for a project that configured none, the first board of the
    request. A later call of the command with an IDE and no board then
    generates the IDE project for that board. *)
Theorem first_board_after_merge (board_ids project_option : list string)
    (env_prefix : string) (force_download : bool) (w w1 : world) :
  fill_project_envs board_ids project_option env_prefix force_download w
    = (Returned, w1) →
  last_override "board" project_option = None →
  load_project_config (ini w1)
    = load_project_config (ini w)
        ++ appended_sections (ini w) board_ids project_option env_prefix →
  NoDup (Config.sections (load_project_config (ini w1))) →
  let first :=
    match configured_boards (load_project_config (ini w)) with
    | b :: _ => Some b
    | [] => head board_ids
    end in
  get_first_board (ini w1) = first
  ∧ ∀ ide_ b project_option' env_prefix',
      ide_ ≠ "" → first = Some b → b ≠ "" →
      cli [] project_option' (Some ide_) env_prefix' w1
        = (CliReturned (Some (ide_, b)), w1).
Proof.
  intros Hrun Hb Hread Hnd first.
  destruct (fill_project_envs_returned _ _ _ _ _ _ Hrun) as [st Hplan].
  destruct (merge_plan_inr _ _ _ _ _ Hplan) as (Hk & _ & _ & _).
  unfold appended_sections in Hread. rewrite Hread in Hnd.
  destruct (configured_boards_extended _ _ _ _ Hb Hnd) as [_ Hused].
  assert (get_first_board (ini w1) = first) as Hfirst.
  { unfold get_first_board. rewrite first_board_scan.
    fold (configured_boards (load_project_config (ini w1))). rewrite Hread, Hused.
    subst first. destruct (configured_boards (load_project_config (ini w))); [|done].
    by apply new_envs_head. }
  split; [done|]. intros ide_ b project_option' env_prefix' Hide Hsome Hne.
  unfold cli. rewrite bool_decide_eq_false_2 by (by intros H; apply H).
  rewrite bool_decide_eq_true_2 by done. rewrite bool_decide_eq_true_2 by done.
  rewrite Hfirst, Hsome. by rewrite bool_decide_eq_true_2.
Qed.


Lemma new_envs_ids_indep (project_option project_option' board_ids used : list string) :
  (new_envs project_option' board_ids used).*1
    = (new_envs project_option board_ids used).*1.
Proof.
  revert used. induction board_ids as [|x rest IH]; intros used; simpl; [done|].
  destruct (board_config x) as [bc|]; [|done].
  case_bool_decide; [apply IH|]. simpl. f_equal. apply IH.
Qed.

(** X14. Overrides and the name prefix shape the text of the new sections
    and nothing else: whether the merge goes through, which boards get a
    section, which boards count as used afterwards and which platforms are
    accumulated for the installer are the same for any two lists of
    overrides and any two prefixes. In particular an override of
    [platform] or [board] changes neither the platforms handed to the
    installer nor the boards that are skipped. *)
Theorem overrides_do_not_steer (text : string)
    (board_ids project_option project_option' : list string)
    (env_prefix env_prefix' : string) (st : acc) :
  merge_plan text board_ids project_option env_prefix = inr st →
  ∃ st',
    merge_plan text board_ids project_option' env_prefix' = inr st'
    ∧ used_boards st' = used_boards st
    ∧ used_platforms st' = used_platforms st
    ∧ used_platforms st = requested_platforms board_ids
    ∧ (new_envs project_option' board_ids
         (configured_boards (load_project_config text))).*1
      = (new_envs project_option board_ids
           (configured_boards (load_project_config text))).*1.
Proof.
  intros Hplan.
  destruct (merge_plan_inr _ _ _ _ _ Hplan) as (Hk & _ & Hu & Hp).
  eexists. split; [unfold merge_plan; by rewrite (board_loop_known _ _ _ _ Hk)|].
  simpl. rewrite Hu, Hp. split_and!; try done.
  - f_equal. apply new_envs_ids_indep.
  - apply new_envs_ids_indep.
Qed.

(** X15. A board counts as already in use, and is skipped by the merge,
    exactly when some section whose name starts with [env:] has it as the
    value of its [board] option: a [board] option in a section of any
    other name is not looked at, and the comparison is by equality of the
    whole value. *)
Theorem configured_boards_spec (config : Config.t) (b : string) :
  b ∈ configured_boards config ↔
  ∃ section, section ∈ Config.sections config
             ∧ Str.startswith section "env:" = true
             ∧ Config.get config section "board" = Some b.
Proof.
  unfold configured_boards.
  generalize (Config.sections config) as secs. intros secs.
  induction secs as [|section rest IH]; simpl.
  - split; [by intros ?%elem_of_nil|]. by intros (? & ?%elem_of_nil & _).
  - destruct (Str.startswith section "env:") eqn:Hs; simpl.
    + destruct (Config.has_option config section "board") eqn:Hopt; simpl.
      * apply has_option_get in Hopt as [b' Hb']. rewrite Hb', scan_sections_acc.
        rewrite elem_of_app, list_elem_of_singleton, IH. split.
        -- intros [->|(s & Hin & ? & ?)].
           ++ exists section. split_and!; [by left|done|done].
           ++ exists s. split_and!; [by right|done|done].
        -- intros (s & [->|Hin]%elem_of_cons & Hs' & Hget).
           ++ left. congruence.
           ++ right. by exists s.
      * assert (Config.get config section "board" = None) as Hnone.
        { destruct (Config.get config section "board") eqn:E; [|done].
          assert (Config.has_option config section "board" = true) as Hyes
            by (apply has_option_get; by rewrite E).
          congruence. }
        rewrite IH. split.
        -- intros (s & Hin & ? & ?). exists s. split_and!; [by right|done|done].
        -- intros (s & [->|Hin]%elem_of_cons & Hs' & Hget); [congruence|by exists s].
    + rewrite IH. split.
      * intros (s & Hin & ? & ?). exists s. split_and!; [by right|done|done].
      * intros (s & [->|Hin]%elem_of_cons & Hs' & Hget); [congruence|by exists s].
Qed.

End Init.

(** ** The reader gives back what a merge appends

    For the reader [Ini.load], the assumption under which the merge is
    idempotent holds whenever the appended sections hold plain text and
    take fresh names. *)

Lemma splitlines_nonempty (s : string) : Ini.splitlines s ≠ [].
Proof.
  destruct s as [|a s]; simpl; [done|].
  destruct (Ini.splitlines s); [done|]. by destruct (Ascii.eqb a "010").
Qed.

Lemma splitlines_one_line (s : string) :
  Ini.one_line s = true → Ini.splitlines s = [s].
Proof.
  unfold Ini.one_line. induction s as [|a s IH]; simpl; [done|].
  destruct (Ascii.eqb a "010"); [done|]. intros H. by rewrite (IH H).
Qed.

Lemma splitlines_break (s t : string) :
  Ini.splitlines (s +:+ String "010" t) = Ini.splitlines s ++ Ini.splitlines t.
Proof.
  induction s as [|a s IH].
  - change ("" +:+ String "010" t) with (String "010" t). simpl.
    destruct (Ini.splitlines t) eqn:E; [by apply splitlines_nonempty in E|done].
  - rewrite app_cons. simpl. rewrite IH.
    destruct (Ini.splitlines s) eqn:E; [by apply splitlines_nonempty in E|].
    simpl. by destruct (Ascii.eqb a "010").
Qed.

Lemma join_cons (sep x y : string) (l : list string) :
  Str.join sep (x :: y :: l) = x +:+ sep +:+ Str.join sep (y :: l).
Proof. reflexivity. Qed.

Lemma splitlines_join (l : list string) :
  l ≠ [] → Forall (λ s, Ini.one_line s = true) l →
  Ini.splitlines (Str.join (String "010" "") l) = l.
Proof.
  induction l as [|x l IH]; [done|]. intros _ [Hx Hl]%Forall_cons.
  destruct l as [|y l].
  - simpl. by apply splitlines_one_line.
  - rewrite join_cons.
    change (String "010" "" +:+ Str.join (String "010" "") (y :: l))
      with (String "010" (Str.join (String "010" "") (y :: l))).
    rewrite splitlines_break, (splitlines_one_line x Hx), IH by done. done.
Qed.

Lemma chop_last_app (s : string) (a : ascii) :
  Ini.chop_last (s +:+ String a "") = s.
Proof.
  induction s as [|b s IH]; [done|]. rewrite app_cons.
  change (Ini.chop_last (String b (s +:+ String a "")))
    with (match s +:+ String a "" with
          | "" => ""
          | _ => String b (Ini.chop_last (s +:+ String a ""))
          end).
  rewrite IH. by destruct s.
Qed.

Lemma rstrip_spaces (s : string) : Str.all_space s = true → Str.rstrip s = "".
Proof.
  induction s as [|a s IH]; simpl; [done|].
  intros [Ha Hs]%andb_true_iff. by rewrite (IH Hs), Ha.
Qed.

Lemma rstrip_app_spaces (s r : string) :
  Str.all_space r = true → Str.rstrip (s +:+ r) = Str.rstrip s.
Proof.
  intros Hr. induction s as [|a s IH].
  - by apply rstrip_spaces.
  - rewrite app_cons. simpl. by rewrite IH.
Qed.

Lemma plain_value_spec (v : string) :
  Ini.plain_value v = true →
  Ini.one_line v = true ∧ v ≠ "" ∧ Str.trimmed v.
Proof.
  unfold Ini.plain_value. intros [[H1 H2]%andb_true_iff H3]%andb_true_iff.
  split; [done|]. split; [by destruct v|]. split; intros a Ha.
  - rewrite Ha in H2. by apply negb_true_iff.
  - rewrite Ha in H3. by apply negb_true_iff.
Qed.

Lemma read_line_blank (st : Config.t * option string) : Ini.read_line st "" = st.
Proof. by destruct st. Qed.

Lemma read_line_header (config : Config.t) (current : option string) (name : string) :
  name ∉ Config.sections config →
  Ini.read_line (config, current) ("[" +:+ name +:+ "]")
    = (config ++ [(name, [])], Some name).
Proof.
  intros Hfresh.
  change ("[" +:+ name +:+ "]") with (String "[" (name +:+ String "]" "")).
  assert (Str.last_char (name +:+ String "]" "") = Some "]"%char) as Hlast
    by by rewrite last_char_app.
  assert (Str.strip (String "[" (name +:+ String "]" ""))
          = String "[" (name +:+ String "]" "")) as Hstrip.
  { apply strip_id.
    - by intros a [= <-].
    - intros a Ha.
      change (Str.last_char (String "[" (name +:+ String "]" "")))
        with (match name +:+ String "]" "" with
              | "" => Some "["%char
              | _ => Str.last_char (name +:+ String "]" "")
              end) in Ha.
      destruct (name +:+ String "]" "") eqn:E; [by destruct name|].
      rewrite Hlast in Ha. by injection Ha as <-. }
  unfold Ini.read_line. rewrite Hstrip.
  rewrite bool_decide_eq_false_2 by done. simpl.
  rewrite Hlast, bool_decide_eq_true_2 by done. rewrite chop_last_app.
  by rewrite bool_decide_eq_false_2.
Qed.

Lemma option_line_parts (k v : string) :
  k +:+ " = " +:+ v = (k +:+ " ") +:+ String "=" (String " " v).
Proof. by rewrite app_assoc_str. Qed.

Lemma read_line_option (config : Config.t) (section k v : string) :
  Ini.plain_key k = true → Ini.plain_value v = true →
  Ini.read_line (config, Some section) (k +:+ " = " +:+ v)
    = (Ini.set_option section k v config, Some section).
Proof.
  unfold Ini.plain_key. intros [[Hk Heq]%andb_true_iff Hfirst]%andb_true_iff Hv.
  apply plain_value_spec in Hk as (_ & Hk0 & Hkf & Hkl).
  apply plain_value_spec in Hv as (_ & Hv0 & Hvf & Hvl).
  apply negb_true_iff in Heq.
  assert (Str.strip (k +:+ " = " +:+ v) = k +:+ " = " +:+ v) as Hstrip.
  { apply strip_id.
    - intros a. rewrite first_char_app by done. apply Hkf.
    - intros a. rewrite !last_char_app by first [done | by destruct v]. apply Hvl. }
  assert (Str.split1 "=" (k +:+ " = " +:+ v) = [k +:+ " "; String " " v]) as Hsplit.
  { rewrite option_line_parts. apply split1_first.
    by rewrite contains_append, Heq. }
  assert (Str.strip (k +:+ " ") = k) as Hsk.
  { unfold Str.strip. rewrite lstrip_id.
    - rewrite rstrip_app_spaces by done. by apply rstrip_id.
    - intros a. rewrite first_char_app by done. apply Hkf. }
  assert (Str.strip (String " " v) = v) as Hsv
    by (apply (strip_id v); done).
  assert (Ini.is_comment (k +:+ " = " +:+ v) = false) as Hcomment.
  { destruct k as [|a k]; [done|]. rewrite app_cons. simpl in Hfirst.
    unfold Ini.is_comment.
    destruct (decide (a = "#"%char)) as [->|]; [done|].
    destruct (decide (a = ";"%char)) as [->|]; [done|].
    by destruct a as [[] [] [] [] [] [] [] []]. }
  assert (Ini.header (k +:+ " = " +:+ v) = None) as Hheader.
  { destruct k as [|a k]; [done|]. rewrite app_cons. simpl in Hfirst.
    unfold Ini.header.
    destruct (decide (a = "["%char)) as [->|]; [done|].
    by destruct a as [[] [] [] [] [] [] [] []]. }
  unfold Ini.read_line. rewrite Hstrip, Hcomment, Hheader, Hsplit, Hsk, Hsv.
  rewrite bool_decide_eq_false_2; [done|]. by destruct k.
Qed.

Lemma set_option_last (config : Config.t) (section k v : string) (opts : Dict.t) :
  section ∉ Config.sections config →
  Ini.set_option section k v (config ++ [(section, opts)])
    = config ++ [(section, Dict.set k v opts)].
Proof.
  unfold Config.sections. induction config as [|[n o] config IH]; simpl.
  - intros _. by rewrite decide_True.
  - intros [Hne Hn]%not_elem_of_cons. rewrite decide_False by done. by rewrite IH.
Qed.

Lemma dict_set_fresh (k v : string) (d : Dict.t) :
  k ∉ d.*1 → Dict.set k v d = d ++ [(k, v)].
Proof.
  induction d as [|[k' v'] d IH]; simpl; [done|].
  intros [Hne Hn]%not_elem_of_cons. rewrite decide_False by done. by rewrite IH.
Qed.

Lemma one_line_app (s t : string) :
  Ini.one_line (s +:+ t) = Ini.one_line s && Ini.one_line t.
Proof. unfold Ini.one_line. by rewrite contains_append, negb_orb. Qed.

Lemma plain_options_cons (k v : string) (opts : Dict.t) :
  Ini.plain_options ((k, v) :: opts) = true →
  Ini.plain_key k = true ∧ Ini.plain_value v = true ∧ Ini.plain_options opts = true.
Proof.
  unfold Ini.plain_options. simpl.
  by intros [[??]%andb_true_iff ?]%andb_true_iff.
Qed.

Lemma plain_key_value (k : string) : Ini.plain_key k = true → Ini.plain_value k = true.
Proof. unfold Ini.plain_key. by intros [[? _]%andb_true_iff _]%andb_true_iff. Qed.

Lemma read_options (config : Config.t) (section : string) (seen rest : Dict.t) :
  section ∉ Config.sections config →
  NoDup (seen ++ rest).*1 →
  Ini.plain_options rest = true →
  foldl Ini.read_line (config ++ [(section, seen)], Some section)
    (map (λ '(name, value), name +:+ " = " +:+ value) rest)
  = (config ++ [(section, seen ++ rest)], Some section).
Proof.
  intros Hfresh. revert seen. induction rest as [|[k v] rest IH]; intros seen Hnd Hplain.
  - by rewrite app_nil_r.
  - apply plain_options_cons in Hplain as (Hk & Hv & Hrest).
    change (map _ ((k, v) :: rest))
      with ((k +:+ " = " +:+ v)
              :: map (λ '(name, value), name +:+ " = " +:+ value) rest).
    change (foldl Ini.read_line ?st (?x :: ?l))
      with (foldl Ini.read_line (Ini.read_line st x) l).
    rewrite read_line_option, set_option_last by done.
    rewrite dict_set_fresh.
    + rewrite IH; [by rewrite <- (assoc_L (++))| |done].
      by rewrite <- (assoc_L (++)).
    + rewrite fmap_app in Hnd. apply NoDup_app in Hnd as (_ & Hdisj & _).
      intros Hin. apply (Hdisj k Hin). by left.
Qed.

Lemma read_env (config : Config.t) (current : option string)
    (env_prefix id_ : string) (envopts : Dict.t) :
  section_name env_prefix id_ ∉ Config.sections config →
  NoDup envopts.*1 →
  Ini.plain_options envopts = true →
  foldl Ini.read_line (config, current) (render_env env_prefix id_ envopts)
  = (config ++ [(section_name env_prefix id_, envopts)],
     Some (section_name env_prefix id_)).
Proof.
  intros Hfresh Hnd Hplain. unfold render_env.
  rewrite foldl_app.
  change (foldl Ini.read_line (config, current)
            [""; "[" +:+ section_name env_prefix id_ +:+ "]"])
    with (Ini.read_line (Ini.read_line (config, current) "")
            ("[" +:+ section_name env_prefix id_ +:+ "]")).
  rewrite read_line_blank, read_line_header by done.
  by apply (read_options config _ []).
Qed.

Lemma read_envs (env_prefix : string) (envs : list (string * Dict.t))
    (config : Config.t) (current : option string) :
  NoDup (Config.sections (config ++ as_sections env_prefix envs)) →
  Forall (λ env, Ini.plain_env env = true ∧ NoDup env.2.*1) envs →
  (foldl Ini.read_line (config, current)
     (flat_map (λ '(id_, envopts), render_env env_prefix id_ envopts) envs)).1
  = config ++ as_sections env_prefix envs.
Proof.
  revert config current.
  induction envs as [|[id_ envopts] envs IH]; intros config current Hnd Hall.
  - by rewrite app_nil_r.
  - apply Forall_cons in Hall as [[Hplain Hkeys] Hall].
    apply andb_true_iff in Hplain as [_ Hplain].
    change (as_sections env_prefix ((id_, envopts) :: envs))
      with ((section_name env_prefix id_, envopts) :: as_sections env_prefix envs) in *.
    change (flat_map _ ((id_, envopts) :: envs))
      with (render_env env_prefix id_ envopts
              ++ flat_map (λ '(id_, envopts), render_env env_prefix id_ envopts) envs).
    rewrite (cons_middle _ config) in Hnd |- *. rewrite (assoc_L (++)) in Hnd |- *.
    rewrite foldl_app, read_env; [by apply IH| |done|done].
    unfold Config.sections in Hnd. rewrite !fmap_app in Hnd.
    apply NoDup_app in Hnd as [Hnd _]. apply NoDup_app in Hnd as (_ & Hdisj & _).
    intros Hin. apply (Hdisj _ Hin). by left.
Qed.

Lemma render_env_one_line (env_prefix id_ : string) (envopts : Dict.t) :
  Ini.one_line env_prefix = true → Ini.plain_env (id_, envopts) = true →
  Forall (λ s, Ini.one_line s = true) (render_env env_prefix id_ envopts).
Proof.
  intros Hprefix [Hid Hplain]%andb_true_iff. simpl in Hid, Hplain.
  unfold render_env. apply Forall_app. split.
  - repeat constructor. unfold section_name.
    rewrite !one_line_app, Hprefix, Hid. done.
  - apply Forall_fmap. induction envopts as [|[k v] envopts IH]; [constructor|].
    apply plain_options_cons in Hplain as (Hk & Hv & Hrest). constructor; [|by apply IH].
    apply plain_key_value, plain_value_spec in Hk as [Hk _].
    apply plain_value_spec in Hv as [Hv _].
    simpl. by rewrite !one_line_app, Hk, Hv.
Qed.

(** What [Ini.load] reads from a file to which a merge has appended the
    sections [envs]: the former sections followed by [envs], provided
    these hold plain text under distinct keys and their names are new. *)
Lemma ini_load_appended (text env_prefix : string) (envs : list (string * Dict.t)) :
  Ini.one_line env_prefix = true →
  Forall (λ env, Ini.plain_env env = true ∧ NoDup env.2.*1) envs →
  NoDup (Config.sections (Ini.load text ++ as_sections env_prefix envs)) →
  Ini.load (text +:+ Str.join (String "010" "")
                       (flat_map (λ '(id_, envopts), render_env env_prefix id_ envopts) envs
                          ++ [""]))
  = Ini.load text ++ as_sections env_prefix envs.
Proof.
  intros Hprefix Hall Hnd.
  assert (Forall (λ s, Ini.one_line s = true)
            (flat_map (λ '(id_, envopts), render_env env_prefix id_ envopts) envs
               ++ [""])) as Hlines.
  { apply Forall_app. split; [|by repeat constructor].
    clear Hnd. induction envs as [|[id_ envopts] envs IH]; [constructor|].
    apply Forall_cons in Hall as [[Hplain _] Hall].
    change (flat_map _ ((id_, envopts) :: envs))
      with (render_env env_prefix id_ envopts
              ++ flat_map (λ '(id_, envopts), render_env env_prefix id_ envopts) envs).
    apply Forall_app. split; [by apply render_env_one_line|by apply IH]. }
  destruct envs as [|[id_ envopts] envs].
  - simpl. by rewrite app_empty_r, app_nil_r.
  - remember ((id_, envopts) :: envs) as envs' eqn:Henvs.
    assert (∃ rest,
              flat_map (λ '(id_, envopts), render_env env_prefix id_ envopts) envs'
                ++ [""] = "" :: rest ∧ rest ≠ []) as (rest & Hrest & Hne).
    { rewrite Henvs. eexists. split; [reflexivity|done]. }
    rewrite Hrest in Hlines |- *. apply Forall_cons in Hlines as [_ Hlines].
    destruct rest as [|y rest]; [done|]. rewrite join_cons.
    change ("" +:+ String "010" "" +:+ Str.join (String "010" "") (y :: rest))
      with (String "010" (Str.join (String "010" "") (y :: rest))).
    unfold Ini.load. rewrite splitlines_break, splitlines_join, foldl_app by done.
    destruct (foldl Ini.read_line ([], None) (Ini.splitlines text))
      as [config current] eqn:Hst.
    change (foldl Ini.read_line (config, current) (y :: rest))
      with (foldl Ini.read_line (config, current) ("" :: y :: rest)).
    rewrite <- Hrest, foldl_app. simpl in Hnd |- *.
    pose proof (read_envs env_prefix envs' config current) as Hread.
    unfold Ini.load in Hnd. rewrite Hst in Hnd. simpl in Hnd.
    specialize (Hread Hnd Hall).
    destruct (foldl Ini.read_line (config, current) _) as [config' current'].
    simpl in Hread. by rewrite Hread.
Qed.

Lemma dict_set_keys (k v x : string) (d : Dict.t) :
  x ∈ (Dict.set k v d).*1 → x = k ∨ x ∈ d.*1.
Proof.
  induction d as [|[k' v'] d IH]; simpl.
  - intros [->|H]%elem_of_cons; [by left|by apply elem_of_nil in H].
  - destruct (decide (k' = k)) as [->|Hne]; simpl.
    + intros [->|H]%elem_of_cons; [by left|right; by right].
    + intros [->|H]%elem_of_cons; [right; by left|].
      destruct (IH H); [by left|right; by right].
Qed.

Lemma dict_set_nodup (k v : string) (d : Dict.t) :
  NoDup d.*1 → NoDup (Dict.set k v d).*1.
Proof.
  induction d as [|[k' v'] d IH]; simpl.
  - intros _. apply NoDup_singleton.
  - intros [Hn Hnd]%NoDup_cons. destruct (decide (k' = k)) as [->|Hne]; simpl.
    + by constructor.
    + constructor; [|by apply IH].
      intros [->|H]%dict_set_keys; done.
Qed.

Lemma build_envopts_nodup (bc : BoardConfig) (id_ : string) (project_option : list string) :
  NoDup (build_envopts bc id_ project_option).*1.
Proof.
  unfold build_envopts.
  assert (NoDup (default_envopts bc id_).*1) as Hd.
  { unfold default_envopts. destruct (frameworks bc) as [[|f fs]|]; simpl;
      apply (bool_decide_unpack _); vm_compute; exact I. }
  revert Hd. generalize (default_envopts bc id_).
  induction project_option as [|item rest IH]; intros d Hd; simpl; [done|].
  apply IH. rewrite set_project_option_override.
  destruct (override_of item) as [[k v]|]; [by apply dict_set_nodup|done].
Qed.

Lemma set_option_sections (section k v : string) (config : Config.t) :
  Config.sections (Ini.set_option section k v config) = Config.sections config.
Proof.
  unfold Config.sections. induction config as [|[n o] config IH]; simpl; [done|].
  destruct (decide (n = section)); simpl; [done|]. f_equal. exact IH.
Qed.

(** The reader never produces two sections of one name. *)
Lemma ini_load_nodup (text : string) : NoDup (Config.sections (Ini.load text)).
Proof.
  unfold Ini.load.
  assert (∀ lines st, NoDup (Config.sections st.1) →
            NoDup (Config.sections (foldl Ini.read_line st lines).1)) as Hinv.
  { induction lines as [|raw lines IH]; intros [config current] Hnd; [done|].
    simpl. apply IH. unfold Ini.read_line.
    destruct (bool_decide (Str.strip raw = "") || Ini.is_comment (Str.strip raw));
      [done|].
    destruct (Ini.header (Str.strip raw)) as [name|].
    - case_bool_decide as Hin; [done|]. simpl.
      unfold Config.sections in *. rewrite fmap_app. simpl.
      apply NoDup_app. split_and!; [done| |apply NoDup_singleton].
      intros x Hx [->|H]%elem_of_cons; [done|by apply elem_of_nil in H].
    - destruct current as [section|]; [|done].
      destruct (Str.split1 "=" (Str.strip raw)) as [|k [|v [|? ?]]]; try done.
      simpl. by rewrite set_option_sections. }
  apply Hinv. constructor.
Qed.

Lemma section_name_inj (env_prefix : string) : Inj (=) (=) (section_name env_prefix).
Proof.
  intros a b H. unfold section_name in H.
  by apply (inj (String.app "env:")), (inj (String.app env_prefix)) in H.
Qed.

Lemma as_sections_names (env_prefix : string) (envs : list (string * Dict.t)) :
  Config.sections (as_sections env_prefix envs) = section_name env_prefix <$> envs.*1.
Proof.
  unfold Config.sections, as_sections.
  induction envs as [|[id_ envopts] envs IH]; [done|]. simpl. f_equal. exact IH.
Qed.

(** For the reader [Ini.load] the two assumptions of the idempotence
    property hold after every merge that returns, when the appended
    sections hold plain text and take names the file does not have yet:
    the file reads back as the former sections followed by the appended
    ones, and all section names are distinct. *)
Lemma ini_read_back (board_config : string → option BoardConfig)
    (cli_platform_install : list string → list string → option (list string))
    (board_ids project_option : list string) (env_prefix : string)
    (force_download : bool) (w w1 : world) :
  fill_project_envs Ini.load board_config cli_platform_install
    board_ids project_option env_prefix force_download w = (Returned, w1) →
  Ini.one_line env_prefix = true →
  Forall (λ env, Ini.plain_env env = true)
    (new_envs board_config project_option board_ids
       (configured_boards (Ini.load (ini w)))) →
  (∀ id_, id_ ∈ (new_envs board_config project_option board_ids
                   (configured_boards (Ini.load (ini w)))).*1 →
          section_name env_prefix id_ ∉ Config.sections (Ini.load (ini w))) →
  Ini.load (ini w1)
    = Ini.load (ini w)
        ++ appended_sections Ini.load board_config (ini w)
             board_ids project_option env_prefix
  ∧ NoDup (Config.sections (Ini.load (ini w1))).
Proof.
  intros Hrun Hprefix Hplain Hfresh.
  destruct (fill_project_envs_returned _ _ _ _ _ _ _ _ _ Hrun) as [st Hplan].
  destruct (merge_plan_inr _ _ _ _ _ _ _ Hplan) as (_ & Hc & _ & _).
  unfold appended_sections.
  set (envs := new_envs board_config project_option board_ids
                 (configured_boards (Ini.load (ini w)))) in *.
  assert (NoDup (Config.sections (Ini.load (ini w) ++ as_sections env_prefix envs)))
    as Hnd.
  { unfold Config.sections. rewrite fmap_app. apply NoDup_app. split_and!.
    - apply ini_load_nodup.
    - intros x Hx Hin. fold (Config.sections (as_sections env_prefix envs)) in Hin.
      rewrite as_sections_names in Hin.
      apply list_elem_of_fmap in Hin as (id_ & -> & Hid). by apply (Hfresh id_).
    - fold (Config.sections (as_sections env_prefix envs)).
      rewrite as_sections_names.
      pose proof (section_name_inj env_prefix) as Hinj.
      apply (NoDup_fmap_2 (section_name env_prefix)). apply new_envs_nodup. }
  assert (Ini.load (ini w1) = Ini.load (ini w) ++ as_sections env_prefix envs) as Hread.
  { destruct (fill_project_envs_cases Ini.load board_config cli_platform_install
                _ _ _ force_download _ _ Hplan)
      as (o1 & w' & inst & _ & Hini & _ & _ & Heq).
    rewrite Hrun in Heq. destruct o1 as [|e]; [|done].
    case_bool_decide as Hnil.
    - injection Heq as ->. rewrite Hini.
      rewrite Hnil in Hc. symmetry in Hc. apply content_nil_new_envs in Hc.
      fold envs. by rewrite Hc, app_nil_r.
    - injection Heq as ->. simpl. rewrite Hini, Hc.
      apply ini_load_appended; [done| |done].
      apply Forall_forall. intros [id_ envopts] Hin. split.
      + by apply (proj1 (Forall_forall _ _) Hplain).
      + destruct (new_envs_envopts _ _ _ _ _ _ Hin) as (bc & _ & ->).
        apply build_envopts_nodup. }
  split; [done|]. by rewrite Hread.
Qed.

(** ** Properties of [init_cvs_ignore] *)

Lemma writelines_cons (l : string) (ls : list string) :
  Ignore.writelines (l :: ls) = l +:+ Ignore.writelines ls.
Proof.
  unfold Ignore.writelines. destruct ls as [|l' ls]; simpl; [|done].
  by rewrite app_empty_r.
Qed.

Lemma writelines_app (ls ls' : list string) :
  Ignore.writelines (ls ++ ls') = Ignore.writelines ls +:+ Ignore.writelines ls'.
Proof.
  induction ls as [|l ls IH]; [done|].
  change ((l :: ls) ++ ls') with (l :: (ls ++ ls')).
  by rewrite !writelines_cons, IH, app_assoc_str.
Qed.

(** Writing back the lines read gives the text read. *)
Lemma writelines_readlines (s : string) : Ignore.writelines (Ignore.readlines s) = s.
Proof.
  induction s as [|a s IH]; [done|]. simpl.
  destruct (Ascii.eqb a "010") eqn:E.
  - apply Ascii.eqb_eq in E as ->. by rewrite writelines_cons, IH.
  - destruct (Ignore.readlines s) as [|h t].
    + simpl in IH. by rewrite <- IH.
    + rewrite writelines_cons in *. by rewrite app_cons, IH.
Qed.

Lemma is_line_last (l : string) :
  Ignore.is_line l → Str.last_char l = Some "010"%char.
Proof. intros (body & -> & _). by rewrite last_char_app. Qed.

Lemma no_newline_last (l : string) :
  Str.contains "010"%char l = false → Str.last_char l ≠ Some "010"%char.
Proof.
  induction l as [|a l IH]; simpl; [done|].
  destruct (Ascii.eqb a "010") eqn:E; [done|]. intros H.
  destruct l as [|b l]; [|by apply IH].
  intros [= ->]. by rewrite Ascii.eqb_refl in E.
Qed.

Lemma readlines_file_lines (s : string) : Ignore.file_lines (Ignore.readlines s).
Proof.
  induction s as [|a s IH]; simpl; [constructor|].
  destruct (Ascii.eqb a "010") eqn:E.
  - apply Ignore.file_lines_cons; [|done]. apply Ascii.eqb_eq in E as ->. by exists "".
  - destruct (Ignore.readlines s) as [|h t].
    + apply Ignore.file_lines_open; [|done]. simpl. by rewrite E.
    + inversion IH as [|l Hl Hne|l ls (body & -> & Hbody) Hls]; subst.
      * apply Ignore.file_lines_open; [|done]. simpl. by rewrite E.
      * apply Ignore.file_lines_cons; [|done]. exists (String a body).
        split; [done|]. simpl. by rewrite E.
Qed.

Lemma terminate_last_lines (ls : list string) :
  Ignore.file_lines ls → Forall Ignore.is_line (Ignore.terminate_last ls).
Proof.
  induction 1 as [|l Hl Hne|l ls Hline Hls IH]; simpl.
  - constructor.
  - unfold Ignore.ends_with_newline.
    rewrite bool_decide_eq_false_2 by by apply no_newline_last.
    repeat constructor. by exists l.
  - destruct ls as [|l' ls].
    + unfold Ignore.ends_with_newline.
      rewrite bool_decide_eq_true_2 by by apply is_line_last. by repeat constructor.
    + by constructor.
Qed.

Lemma terminate_last_id (ls : list string) :
  Forall Ignore.is_line ls → Ignore.terminate_last ls = ls.
Proof.
  induction 1 as [|l ls Hl Hls IH]; [done|]. simpl. destruct ls as [|l' ls].
  - unfold Ignore.ends_with_newline.
    by rewrite bool_decide_eq_true_2 by by apply is_line_last.
  - by rewrite IH.
Qed.

Lemma readlines_line (body rest : string) :
  Str.contains "010"%char body = false →
  Ignore.readlines ((body +:+ Ignore.nl) +:+ rest)
    = (body +:+ Ignore.nl) :: Ignore.readlines rest.
Proof.
  induction body as [|a body IH]; simpl; [done|].
  destruct (Ascii.eqb a "010") eqn:E; [done|]. intros H.
  rewrite ?app_cons. simpl. by rewrite ?E, (IH H).
Qed.

(** Reading back lines that were written gives the lines written. *)
Lemma readlines_writelines (ls : list string) :
  Forall Ignore.is_line ls → Ignore.readlines (Ignore.writelines ls) = ls.
Proof.
  induction 1 as [|l ls (body & -> & Hbody) Hls IH]; [done|].
  by rewrite writelines_cons, readlines_line, IH.
Qed.

Lemma default_lines : Forall Ignore.is_line Ignore.default.
Proof.
  repeat constructor; [by exists ".pioenvs"|by exists ".piolibdeps"].
Qed.

Lemma add_defaults (current : list string) :
  foldl Ignore.add_default current Ignore.default
    = current ++ filter (λ d, d ∉ current) Ignore.default.
Proof.
  unfold Ignore.default, Ignore.add_default. simpl.
  set (d1 := ".pioenvs" +:+ Ignore.nl). set (d2 := ".piolibdeps" +:+ Ignore.nl).
  assert (d2 ≠ d1) as Hne by done.
  destruct (decide (d1 ∈ current)) as [H1|H1];
    destruct (decide (d2 ∈ current)) as [H2|H2].
  - rewrite (bool_decide_eq_true_2 (d1 ∈ current)) by done.
    rewrite (bool_decide_eq_true_2 (d2 ∈ current)) by done.
    rewrite !filter_cons_False by (by intros H; apply H). by rewrite app_nil_r.
  - rewrite (bool_decide_eq_true_2 (d1 ∈ current)) by done.
    rewrite (bool_decide_eq_false_2 (d2 ∈ current)) by done.
    rewrite filter_cons_False by (by intros H; apply H).
    by rewrite filter_cons_True by done.
  - rewrite (bool_decide_eq_false_2 (d1 ∈ current)) by done.
    rewrite bool_decide_eq_true_2 by (apply elem_of_app; by left).
    rewrite filter_cons_True by done.
    by rewrite filter_cons_False by (by intros H; apply H).
  - rewrite (bool_decide_eq_false_2 (d1 ∈ current)) by done.
    rewrite bool_decide_eq_false_2.
    + rewrite !filter_cons_True by done. by rewrite <- (assoc_L (++)).
    + intros [?|?%list_elem_of_singleton]%elem_of_app; done.
Qed.

Lemma add_defaults_present (current : list string) :
  Forall (λ d, d ∈ current) Ignore.default →
  foldl Ignore.add_default current Ignore.default = current.
Proof.
  intros Hall. rewrite add_defaults.
  assert (filter (λ d, d ∉ current) Ignore.default = []) as ->; [|by rewrite app_nil_r].
  induction Hall as [|d ds Hd Hds IH]; [done|].
  by rewrite filter_cons_False by (by intros H; apply H).
Qed.

Lemma add_defaults_all (current : list string) :
  Forall (λ d, d ∈ foldl Ignore.add_default current Ignore.default) Ignore.default.
Proof.
  rewrite add_defaults. apply Forall_forall. intros d Hd. apply elem_of_app.
  destruct (decide (d ∈ current)); [by left|right]. by apply list_elem_of_filter.
Qed.

Lemma add_defaults_lines (current : list string) :
  Forall Ignore.is_line current →
  Forall Ignore.is_line (foldl Ignore.add_default current Ignore.default).
Proof.
  intros H. rewrite add_defaults. apply Forall_app. split; [done|].
  apply Forall_forall. intros d [_ Hd]%list_elem_of_filter.
  by apply (proj1 (Forall_forall _ _) default_lines).
Qed.

Lemma current_lines (existing : option string) :
  Forall Ignore.is_line
    match existing with
    | Some text => Ignore.terminate_last (Ignore.readlines text)
    | None => []
    end.
Proof.
  destruct existing as [text|]; [|constructor].
  apply terminate_last_lines, readlines_file_lines.
Qed.

(** X11. [init_cvs_ignore] is idempotent: applied to the ignore file it
    has written, it writes the same text again, whatever the file held
    before the first call and also when there was no file. *)
Theorem init_cvs_ignore_idempotent (existing : option string) :
  Ignore.init_cvs_ignore (Some (Ignore.init_cvs_ignore existing))
    = Ignore.init_cvs_ignore existing.
Proof.
  unfold Ignore.init_cvs_ignore.
  pose proof (add_defaults_lines _ (current_lines existing)) as Hlines.
  rewrite readlines_writelines by done. rewrite terminate_last_id by done.
  by rewrite add_defaults_present by apply add_defaults_all.
Qed.

Lemma file_lines_text (ls : list string) :
  Ignore.file_lines ls → ls ≠ [] → Ignore.writelines ls ≠ "".
Proof.
  intros H Hne. destruct H as [|l Hl Hl0|l ls (body & -> & _) Hls]; [done| |].
  - by rewrite writelines_cons, app_empty_r.
  - rewrite writelines_cons. by destruct body.
Qed.

Lemma terminate_last_text (ls : list string) :
  Ignore.file_lines ls →
  Ignore.writelines (Ignore.terminate_last ls)
    = if bool_decide (Ignore.writelines ls = "")
         || Ignore.ends_with_newline (Ignore.writelines ls)
      then Ignore.writelines ls
      else Ignore.writelines ls +:+ Ignore.nl.
Proof.
  induction 1 as [|l Hl Hne|l ls Hline Hls IH].
  - done.
  - simpl. unfold Ignore.ends_with_newline.
    rewrite !writelines_cons, !app_empty_r.
    rewrite (bool_decide_eq_false_2 (Str.last_char l = _)) by by apply no_newline_last.
    rewrite writelines_cons, bool_decide_eq_false_2 by done. simpl.
    by rewrite app_empty_r.
  - destruct ls as [|l' ls].
    + simpl. unfold Ignore.ends_with_newline.
      rewrite !writelines_cons, !app_empty_r.
      rewrite (bool_decide_eq_true_2 (Str.last_char l = _)) by by apply is_line_last.
      by rewrite orb_true_r, writelines_cons, app_empty_r.
    + change (Ignore.terminate_last (l :: l' :: ls))
        with (l :: Ignore.terminate_last (l' :: ls)).
      rewrite (writelines_cons l (Ignore.terminate_last _)), IH.
      rewrite (writelines_cons l (l' :: ls)).
      pose proof (file_lines_text _ Hls ltac:(done)) as Hne.
      rewrite (bool_decide_eq_false_2 (Ignore.writelines (l' :: ls) = "")) by done.
      rewrite (bool_decide_eq_false_2 (l +:+ _ = "")).
      * unfold Ignore.ends_with_newline. rewrite last_char_app by done. simpl.
        destruct (bool_decide (Str.last_char (Ignore.writelines (l' :: ls)) = _));
          [done|]. symmetry. apply app_assoc_str.
      * destruct Hline as (body & -> & _). by destruct body.
Qed.

(** X12. [init_cvs_ignore] keeps the text of an existing ignore file and
    only adds to its end: a line feed when the last line lacks one, then
    those of the two entries [.pioenvs] and [.piolibdeps] that are not
    yet lines of the file. A file that ends in a line feed and lists both
    entries is written back as it is. *)
Theorem init_cvs_ignore_keeps_text (text : string) :
  let current := Ignore.terminate_last (Ignore.readlines text) in
  let closed :=
    if bool_decide (text = "") || Ignore.ends_with_newline text
    then text else text +:+ Ignore.nl in
  Ignore.writelines current = closed
  ∧ Ignore.init_cvs_ignore (Some text)
      = closed +:+ Ignore.writelines (filter (λ d, d ∉ current) Ignore.default)
  ∧ (Ignore.ends_with_newline text = true →
     Forall (λ d, d ∈ Ignore.readlines text) Ignore.default →
     Ignore.init_cvs_ignore (Some text) = text).
Proof.
  intros current closed.
  assert (Ignore.writelines current = closed) as Hclosed.
  { subst current closed.
    rewrite terminate_last_text by apply readlines_file_lines.
    by rewrite writelines_readlines. }
  split; [done|]. split.
  - unfold Ignore.init_cvs_ignore. fold current.
    by rewrite add_defaults, writelines_app, Hclosed.
  - intros Hend Hall. unfold Ignore.init_cvs_ignore.
    assert (Ignore.terminate_last (Ignore.readlines text) = Ignore.readlines text)
      as Hsame.
    { pose proof (readlines_file_lines text) as Hfl.
      pose proof (terminate_last_text _ Hfl) as Htext.
      rewrite writelines_readlines, Hend, orb_true_r in Htext.
      rewrite <- (writelines_readlines text) in Htext at 2.
      pose proof (terminate_last_lines _ Hfl) as Hlines.
      rewrite <- (readlines_writelines _ Hlines), Htext.
      by rewrite writelines_readlines. }
    rewrite Hsame, add_defaults_present by done. apply writelines_readlines.
Qed.

(** X13. The ignore file that [init_cvs_ignore] writes consists of whole
    lines: the lines of the former file in their order (the last one
    closed by a line feed), followed by the missing ones of the two
    entries; both entries are lines of it, and it holds no line that was
    not in the former file or is one of the two entries. *)
Theorem init_cvs_ignore_lines (existing : option string) :
  let current :=
    match existing with
    | Some text => Ignore.terminate_last (Ignore.readlines text)
    | None => []
    end in
  let written := Ignore.readlines (Ignore.init_cvs_ignore existing) in
  written = current ++ filter (λ d, d ∉ current) Ignore.default
  ∧ Forall Ignore.is_line written
  ∧ Forall (λ d, d ∈ written) Ignore.default
  ∧ (∀ l, l ∈ written → l ∈ current ∨ l ∈ Ignore.default)
  ∧ (∀ d, d ∈ Ignore.default → d ∉ current →
       length (filter (λ l, l = d) written) = 1).
Proof.
  intros current written.
  pose proof (add_defaults_lines _ (current_lines existing)) as Hlines.
  assert (written = foldl Ignore.add_default current Ignore.default) as Hw.
  { subst written. unfold Ignore.init_cvs_ignore. by rewrite readlines_writelines. }
  rewrite Hw. split; [apply add_defaults|]. split; [done|].
  split; [apply add_defaults_all|]. rewrite add_defaults. split.
  - intros l [?|[_ ?]%list_elem_of_filter]%elem_of_app; [by left|by right].
  - intros d Hd Hfresh. rewrite filter_app, length_app.
    rewrite (filter_eq_notin d current Hfresh). simpl.
    unfold Ignore.default in *.
    set (d1 := ".pioenvs" +:+ Ignore.nl) in *.
    set (d2 := ".piolibdeps" +:+ Ignore.nl) in *.
    assert (d1 ≠ d2) as Hne by done.
    apply elem_of_cons in Hd as [->|Hd]; [|apply list_elem_of_singleton in Hd as ->].
    + rewrite (filter_cons_True (λ d, d ∉ current)) by done.
      rewrite (filter_cons_True (λ l, l = d1)) by done.
      destruct (decide (d2 ∈ current)).
      * by rewrite (filter_cons_False (λ d, d ∉ current)) by (by intros H; apply H).
      * rewrite (filter_cons_True (λ d, d ∉ current)) by done.
        by rewrite (filter_cons_False (λ l, l = d1)) by done.
    + destruct (decide (d1 ∈ current)).
      * rewrite (filter_cons_False (λ d, d ∉ current)) by (by intros H; apply H).
        rewrite (filter_cons_True (λ d, d ∉ current)) by done.
        by rewrite (filter_cons_True (λ l, l = d2)) by done.
      * rewrite (filter_cons_True (λ d, d ∉ current)) by done.
        rewrite (filter_cons_False (λ l, l = d2)) by done.
        rewrite (filter_cons_True (λ d, d ∉ current)) by done.
        by rewrite (filter_cons_True (λ l, l = d2)) by done.
Qed.

(** ** The properties at concrete inputs *)

Lemma nodup_by_computation (l : list string) : Is_true (bool_decide (NoDup l)) → NoDup l.
Proof. apply bool_decide_unpack. Qed.

(** Re-merging [uno] and [due] into a project that configured [uno]
    under another name and got [due] from the first merge changes
    nothing. *)
Lemma merge_idempotent_witness :
  fill_project_envs Ini.load Demo.registry Demo.install_ok
    ["uno"; "due"; "due"] ["framework = mbed"; "junk"] "" false
    (Demo.fresh Demo.myenv_ini) = (Returned, Demo.after_due)
  ∧ ∃ st2,
      merge_plan Ini.load Demo.registry (ini Demo.after_due)
        ["uno"; "due"; "due"] ["framework = mbed"; "junk"] "" = inr st2
      ∧ content st2 = []
      ∧ new_envs Demo.registry ["framework = mbed"; "junk"] ["uno"; "due"; "due"]
          (configured_boards (Ini.load (ini Demo.after_due))) = []
      ∧ let '(o2, w2) :=
          fill_project_envs Ini.load Demo.registry Demo.install_ok
            ["uno"; "due"; "due"] ["framework = mbed"; "junk"] "" true Demo.after_due in
        ini w2 = ini Demo.after_due
        ∧ (events w2 = events Demo.after_due
           ∨ ∃ missing, events w2 = events Demo.after_due ++ [EvInstall missing]).
Proof.
  split; [vm_compute; reflexivity|].
  apply (merge_idempotent Ini.load Demo.registry Demo.install_ok
           ["uno"; "due"; "due"] ["framework = mbed"; "junk"] "" false true
           (Demo.fresh Demo.myenv_ini) Demo.after_due).
  - vm_compute; reflexivity.
  - vm_compute; reflexivity.
  - vm_compute; reflexivity.
  - apply nodup_by_computation. vm_compute. exact I.
Defined.

(** C1 as stated fails. With the override [board=due] the section written
    for [uno] does not name [uno] as its board, so the second run with the
    same arguments writes the section again: the file grows. *)
Lemma merge_not_idempotent :
  fill_project_envs Ini.load Demo.registry Demo.install_ok
    ["uno"] ["board=due"] "" false (Demo.fresh "")
  = (Returned, {| ini := Demo.uno_as_due_text; installed := [];
                  events := [EvAppend Demo.uno_as_due_text] |})
  ∧ fill_project_envs Ini.load Demo.registry Demo.install_ok
      ["uno"] ["board=due"] "" false
      {| ini := Demo.uno_as_due_text; installed := [];
         events := [EvAppend Demo.uno_as_due_text] |}
    = (Returned, {| ini := Demo.uno_as_due_text +:+ Demo.uno_as_due_text;
                    installed := [];
                    events := [EvAppend Demo.uno_as_due_text;
                               EvAppend Demo.uno_as_due_text] |})
  ∧ Demo.uno_as_due_text +:+ Demo.uno_as_due_text ≠ Demo.uno_as_due_text.
Proof.
  split; [vm_compute; reflexivity|]. split; [vm_compute; reflexivity|].
  vm_compute. discriminate.
Qed.

(** Why section names have to stay distinct: when a new section takes the
    name of an existing one, a reader that continues the existing section
    loses the board that section named, and the second run writes a
    section for that board. *)
Example merge_name_clash :
  fill_project_envs Ini.load Demo.registry Demo.install_ok
    ["due"; "uno"] [] "" false (Demo.fresh Demo.uno_named_due_ini)
  = (Returned, {| ini := Demo.uno_named_due_ini +:+ Demo.uno_text; installed := [];
                  events := [EvAppend Demo.uno_text] |})
  ∧ configured_boards (Ini.load Demo.uno_named_due_ini) = ["due"]
  ∧ configured_boards (Ini.load (Demo.uno_named_due_ini +:+ Demo.uno_text)) = ["uno"]
  ∧ ∃ more,
      fill_project_envs Ini.load Demo.registry Demo.install_ok
        ["due"; "uno"] [] "" false
        {| ini := Demo.uno_named_due_ini +:+ Demo.uno_text; installed := [];
           events := [EvAppend Demo.uno_text] |}
      = (Returned, {| ini := (Demo.uno_named_due_ini +:+ Demo.uno_text) +:+ more;
                      installed := [];
                      events := [EvAppend Demo.uno_text; EvAppend more] |})
      ∧ more ≠ "".
Proof.
  split; [vm_compute; reflexivity|]. split; [vm_compute; reflexivity|].
  split; [vm_compute; reflexivity|].
  eexists. split; [vm_compute; reflexivity|]. discriminate.
Qed.

(** A batch with one known and one unknown identifier. *)
Lemma unknown_board_aborts_merge_witness :
  (∃ id_, id_ ∈ ["uno"; "nope"] ∧ Demo.registry id_ = None)
  ∧ ∃ bad before after,
      ["uno"; "nope"] = before ++ bad :: after
      ∧ Demo.registry bad = None
      ∧ Forall (λ id_, is_Some (Demo.registry id_)) before
      ∧ validate_boards Demo.registry ["uno"; "nope"]
          = inl (BadParameter (bad_board_message bad))
      ∧ merge_plan Ini.load Demo.registry (ini (Demo.fresh Demo.myenv_ini))
          ["uno"; "nope"] [] "" = inl (UnknownBoard bad)
      ∧ fill_project_envs Ini.load Demo.registry Demo.install_ok
          ["uno"; "nope"] [] "" true (Demo.fresh Demo.myenv_ini)
        = (Raised (UnknownBoard bad), Demo.fresh Demo.myenv_ini).
Proof.
  assert (∃ id_, id_ ∈ ["uno"; "nope"] ∧ Demo.registry id_ = None) as Hex.
  { exists "nope". split; [|reflexivity].
    apply elem_of_cons. right. apply elem_of_cons. by left. }
  split; [exact Hex|].
  exact (unknown_board_aborts_merge Ini.load Demo.registry Demo.install_ok
           ["uno"; "nope"] [] "" true (Demo.fresh Demo.myenv_ini) Hex).
Defined.

(** The same batch, evaluated: the error names [nope] and the world is
    untouched. *)
Example unknown_board_evaluated :
  validate_boards Demo.registry ["uno"; "nope"]
    = inl (BadParameter
             "`nope`. Please search for board ID using `platformio boards` command")
  ∧ fill_project_envs Ini.load Demo.registry Demo.install_ok
      ["uno"; "nope"] [] "" true (Demo.fresh Demo.myenv_ini)
    = (Raised (UnknownBoard "nope"), Demo.fresh Demo.myenv_ini).
Proof. split; vm_compute; reflexivity. Qed.

(** After the merge of [uno] and [due] into [myenv_ini], [due] has one new
    section and no board is configured twice. *)
Lemma merge_keeps_boards_distinct_witness :
  ∃ st,
    merge_plan Ini.load Demo.registry (ini (Demo.fresh Demo.myenv_ini))
      ["uno"; "due"; "due"] ["framework = mbed"; "junk"] "" = inr st
    ∧ length (filter (λ x, x = "due")
                (new_envs Demo.registry ["framework = mbed"; "junk"] ["uno"; "due"; "due"]
                   (configured_boards (Ini.load Demo.myenv_ini))).*1) = 1
    ∧ length (filter (λ x, x = "uno")
                (new_envs Demo.registry ["framework = mbed"; "junk"] ["uno"; "due"; "due"]
                   (configured_boards (Ini.load Demo.myenv_ini))).*1) = 0
    ∧ ∀ b, length (envs_with_board (Ini.load (ini Demo.after_due)) b) ≤ 1.
Proof.
  eexists. split; [vm_compute; reflexivity|].
  destruct (merge_keeps_boards_distinct Ini.load Demo.registry Demo.install_ok
              ["uno"; "due"; "due"] ["framework = mbed"; "junk"] ""
              (Demo.fresh Demo.myenv_ini) _ eq_refl)
    as (_ & _ & Hone & Hzero & Hkeep).
  split; [|split].
  - apply Hone; [|vm_compute].
    + apply elem_of_cons. right. apply elem_of_cons. by left.
    + intros [H|H]%elem_of_cons; [discriminate|by apply elem_of_nil in H].
  - apply Hzero. vm_compute. by left.
  - apply (Hkeep false Demo.after_due).
    + vm_compute; reflexivity.
    + vm_compute; reflexivity.
    + vm_compute; reflexivity.
    + apply nodup_by_computation. vm_compute. exact I.
    + intros b. etrans; [apply length_filter|]. vm_compute. lia.
Defined.

(** C3 as stated fails. Under the override [board=uno] the sections for
    [uno] and [due] both name [uno] as their board; and two sections that
    name the same board before the merge are both there after it. *)
Lemma merge_leaves_duplicate_boards :
  (fill_project_envs Ini.load Demo.registry Demo.install_ok
     ["uno"; "due"] ["board=uno"] "" false (Demo.fresh "")
   = (Returned, {| ini := Demo.both_as_uno_text; installed := [];
                   events := [EvAppend Demo.both_as_uno_text] |})
   ∧ envs_with_board (Ini.load Demo.both_as_uno_text) "uno" = ["env:uno"; "env:due"])
  ∧ ∃ w1,
      fill_project_envs Ini.load Demo.registry Demo.install_ok
        ["due"] [] "" false (Demo.fresh Demo.twice_uno_ini) = (Returned, w1)
      ∧ envs_with_board (Ini.load (ini w1)) "uno" = ["env:a"; "env:b"].
Proof.
  split; [split; vm_compute; reflexivity|].
  eexists. split; vm_compute; reflexivity.
Qed.

(** C4 as stated fails. With eager installation of a platform that is not
    installed, the installer is the first thing invoked; when it raises,
    the new section for [uno] is never written, and when it returns the
    append comes after it. *)
Lemma install_failure_leaves_file_unwritten :
  (∃ st, merge_plan Ini.load Demo.registry "" ["uno"] [] "" = inr st ∧ content st ≠ [])
  ∧ fill_project_envs Ini.load Demo.registry Demo.install_fails
      ["uno"] [] "" true (Demo.fresh "")
    = (Raised (InstallFailure ["atmelavr"]),
       {| ini := ""; installed := []; events := [EvInstall ["atmelavr"]] |})
  ∧ fill_project_envs Ini.load Demo.registry Demo.install_ok
      ["uno"] [] "" true (Demo.fresh "")
    = (Returned,
       {| ini := Demo.uno_text; installed := ["atmelavr"];
          events := [EvInstall ["atmelavr"]; EvAppend Demo.uno_text] |}).
Proof.
  split; [|split; vm_compute; reflexivity].
  eexists. split; [vm_compute; reflexivity|]. discriminate.
Qed.

(** Requesting [uno] again in a project that configures it in [env:myenv]. *)
Lemma no_new_sections_no_write_witness :
  merge_plan Ini.load Demo.registry (ini (Demo.fresh Demo.myenv_ini)) ["uno"] [] ""
    = inr {| content := []; used_boards := ["uno"]; used_platforms := ["atmelavr"] |}
  ∧ (∀ id_, id_ ∈ ["uno"] → id_ ∈ configured_boards (Ini.load Demo.myenv_ini))
  ∧ ["atmelavr"] = requested_platforms Demo.registry ["uno"]
  ∧ let '(o, w') :=
      fill_project_envs Ini.load Demo.registry Demo.install_ok
        ["uno"] [] "" true (Demo.fresh Demo.myenv_ini) in
    ini w' = Demo.myenv_ini
    ∧ Ini.load (ini w') = Ini.load Demo.myenv_ini
    ∧ (events w' = [] ∨ ∃ missing, events w' = [] ++ [EvInstall missing]).
Proof.
  assert (merge_plan Ini.load Demo.registry (ini (Demo.fresh Demo.myenv_ini)) ["uno"] [] ""
          = inr {| content := []; used_boards := ["uno"]; used_platforms := ["atmelavr"] |})
    as Hplan by (vm_compute; reflexivity).
  split; [exact Hplan|].
  destruct (no_new_sections_no_write Ini.load Demo.registry Demo.install_ok
              ["uno"] [] "" true (Demo.fresh Demo.myenv_ini) _ Hplan eq_refl)
    as (Hall & Hp & _ & Hrun).
  split; [exact Hall|]. split; [exact Hp|]. exact Hrun.
Defined.

(** C5 as stated fails. In that scenario no section is produced, yet the
    platform list holds [atmelavr], and with eager installation the
    installer is invoked with it. *)
Lemma no_new_sections_platforms_not_empty :
  merge_plan Ini.load Demo.registry Demo.myenv_ini ["uno"] [] ""
    = inr {| content := []; used_boards := ["uno"]; used_platforms := ["atmelavr"] |}
  ∧ used_platforms
      {| content := []; used_boards := ["uno"]; used_platforms := ["atmelavr"] |} ≠ []
  ∧ fill_project_envs Ini.load Demo.registry Demo.install_ok
      ["uno"] [] "" true (Demo.fresh Demo.myenv_ini)
    = (Returned,
       {| ini := Demo.myenv_ini; installed := ["atmelavr"];
          events := [EvInstall ["atmelavr"]] |}).
Proof.
  split; [vm_compute; reflexivity|]. split; [discriminate|vm_compute; reflexivity].
Qed.

(** The scenario of the specification: [uno] is configured in [env:myenv]
    and requested again; its platform is accumulated all the same. *)
Lemma platforms_accumulate_witness :
  merge_plan Ini.load Demo.registry (ini (Demo.fresh Demo.myenv_ini)) ["uno"] [] ""
    = inr {| content := []; used_boards := ["uno"]; used_platforms := ["atmelavr"] |}
  ∧ "uno" ∈ configured_boards (Ini.load Demo.myenv_ini)
  ∧ "atmelavr" ∈ ["atmelavr"]
  ∧ let '(o, w') :=
      fill_project_envs Ini.load Demo.registry Demo.install_ok
        ["uno"] [] "" true (Demo.fresh Demo.myenv_ini) in
    "atmelavr" ∈ []
    ∨ ∃ missing rest, events w' = [] ++ EvInstall missing :: rest ∧ "atmelavr" ∈ missing.
Proof.
  assert (merge_plan Ini.load Demo.registry (ini (Demo.fresh Demo.myenv_ini)) ["uno"] [] ""
          = inr {| content := []; used_boards := ["uno"]; used_platforms := ["atmelavr"] |})
    as Hplan by (vm_compute; reflexivity).
  split; [exact Hplan|]. split; [vm_compute; by left|].
  destruct (platforms_accumulate Ini.load Demo.registry Demo.install_ok
              ["uno"] [] "" (Demo.fresh Demo.myenv_ini) _ Hplan) as (_ & _ & Hall).
  destruct (Hall "uno" {| platform := "atmelavr"; frameworks := Some ["arduino"] |})
    as [Hmem Hrun]; [by left|reflexivity|].
  split; [exact Hmem|exact Hrun].
Defined.

(** The scenario of the specification: the registry's first framework for
    [esp32dev] is [espidf], the override asks for [arduino]. *)
Lemma overrides_take_precedence_witness :
  ∃ st,
    merge_plan Ini.load Demo.registry "" ["esp32dev"] ["framework=arduino"] "" = inr st
    ∧ (frameworks <$> Demo.registry "esp32dev") = Some (Some ["espidf"; "arduino"])
    ∧ ∀ id_ envopts,
        (id_, envopts) ∈ new_envs Demo.registry ["framework=arduino"] ["esp32dev"]
                           (configured_boards (Ini.load "")) →
        Dict.get "framework" envopts = Some "arduino".
Proof.
  eexists. split; [vm_compute; reflexivity|]. split; [reflexivity|].
  intros id_ envopts Hin.
  destruct (overrides_take_precedence Ini.load Demo.registry ""
              ["esp32dev"] ["framework=arduino"] "" _ eq_refl) as [_ Hall].
  destruct (Hall id_ envopts Hin) as (bc & _ & _ & _ & _ & _ & _ & Hover & _).
  apply Hover. vm_compute; reflexivity.
Defined.

Example override_framework_evaluated :
  fill_project_envs Ini.load Demo.registry Demo.install_ok
    ["esp32dev"] ["framework=arduino"] "" false (Demo.fresh "")
  = (Returned,
     let text := Demo.nl +:+ "[env:esp32dev]" +:+ Demo.nl
                   +:+ "platform = espressif32" +:+ Demo.nl
                   +:+ "board = esp32dev" +:+ Demo.nl
                   +:+ "framework = arduino" +:+ Demo.nl in
     {| ini := text; installed := []; events := [EvAppend text] |}).
Proof. vm_compute; reflexivity. Qed.

(** Override strings as they are parsed: the string without ['='] is
    skipped, keys and values are trimmed, the later [framework] wins. *)
Example overrides_parsed_evaluated :
  build_envopts {| platform := "atmelavr"; frameworks := Some ["arduino"] |} "uno"
    ["framework = mbed"; "junk"; "  upload_port =  /dev/ttyUSB0 "; "framework=zephyr"]
  = [("platform", "atmelavr"); ("board", "uno"); ("framework", "zephyr");
     ("upload_port", "/dev/ttyUSB0")].
Proof. vm_compute; reflexivity. Qed.

(** The value of [build_flags] keeps its second ['=']. *)
Lemma override_split_at_first_equals_witness :
  Str.contains "="%char "build_flags" = false
  ∧ Str.split1 "="%char ("build_flags" +:+ String "=" "-DF_CPU=16000000")
      = ["build_flags"; "-DF_CPU=16000000"]
  ∧ set_project_option [] ("build_flags" +:+ String "=" "-DF_CPU=16000000")
      = Dict.set (Str.strip "build_flags") (Str.strip "-DF_CPU=16000000") []
  ∧ Dict.get (Str.strip "build_flags")
      (set_project_option [] ("build_flags" +:+ String "=" "-DF_CPU=16000000"))
      = Some (Str.strip "-DF_CPU=16000000")
  ∧ Str.trims_to "-DF_CPU=16000000" (Str.strip "-DF_CPU=16000000")
  ∧ Str.contains "="%char (Str.strip "-DF_CPU=16000000")
      = Str.contains "="%char "-DF_CPU=16000000"
  ∧ (Str.trimmed "-DF_CPU=16000000" → Str.strip "-DF_CPU=16000000" = "-DF_CPU=16000000").
Proof.
  split; [reflexivity|].
  apply (override_split_at_first_equals "build_flags" "-DF_CPU=16000000" []).
  reflexivity.
Defined.

Example override_build_flags_evaluated :
  set_project_option [("board", "uno")] "build_flags=-DF_CPU=16000000"
    = [("board", "uno"); ("build_flags", "-DF_CPU=16000000")]
  ∧ set_project_option [] " build_flags = -DF_CPU=16000000 -DX=1  "
    = [("build_flags", "-DF_CPU=16000000 -DX=1")].
Proof. split; vm_compute; reflexivity. Qed.

(** Overrides that replace [platform] and [board] still leave both keys
    in the new section. *)
Lemma new_sections_define_platform_and_board_witness :
  ∃ st,
    merge_plan Ini.load Demo.registry Demo.myenv_ini
      ["bare"] ["platform=custom"; "board = other"] "x_" = inr st
    ∧ ∀ id_ envopts,
        (id_, envopts) ∈ new_envs Demo.registry ["platform=custom"; "board = other"]
                           ["bare"] (configured_boards (Ini.load Demo.myenv_ini)) →
        ∃ p b, Dict.get "platform" envopts = Some p
               ∧ Dict.get "board" envopts = Some b
               ∧ "platform" +:+ " = " +:+ p ∈ content st
               ∧ "board" +:+ " = " +:+ b ∈ content st.
Proof.
  eexists. split; [vm_compute; reflexivity|].
  exact (proj2 (new_sections_define_platform_and_board Ini.load Demo.registry
                  Demo.myenv_ini ["bare"] ["platform=custom"; "board = other"] "x_"
                  _ eq_refl)).
Defined.

Example new_section_bare_evaluated :
  merge_plan Ini.load Demo.registry Demo.myenv_ini
    ["bare"] ["platform=custom"; "board = other"] "x_"
  = inr {| content := [""; "[env:x_bare]"; "platform = custom"; "board = other"];
           used_boards := ["uno"; "bare"];
           used_platforms := ["native"] |}.
Proof. vm_compute; reflexivity. Qed.

(** [uno] is requested in a project whose section [env:uno] names the
    board [due]: a second header [[env:uno]] is appended. *)
Lemma new_sections_follow_request_witness :
  ∃ st,
    merge_plan Ini.load Demo.registry Demo.uno_named_due_ini
      ["due"; "uno"; "uno"] [] "" = inr st
    ∧ "env:uno" ∈ Config.sections (Ini.load Demo.uno_named_due_ini)
    ∧ sublist (new_envs Demo.registry [] ["due"; "uno"; "uno"]
                 (configured_boards (Ini.load Demo.uno_named_due_ini))).*1
        ["due"; "uno"; "uno"]
    ∧ "[" +:+ section_name "" "uno" +:+ "]" ∈ content st.
Proof.
  eexists. split; [vm_compute; reflexivity|]. split; [vm_compute; by left|].
  destruct (new_sections_follow_request Ini.load Demo.registry Demo.uno_named_due_ini
              ["due"; "uno"; "uno"] [] "" _ eq_refl) as (Hsub & _ & _ & _ & Hhead).
  split; [exact Hsub|]. apply Hhead.
  - apply elem_of_cons. right. by left.
  - vm_compute. intros [H|H]%elem_of_cons; [discriminate|by apply elem_of_nil in H].
Defined.


(** After [uno] is merged into an empty project, the command run with an
    IDE and no board generates the IDE project for [uno]. *)
Lemma first_board_after_merge_witness :
  fill_project_envs Ini.load Demo.registry Demo.install_ok
    ["uno"; "due"] [] "" false (Demo.fresh "") = (Returned, Demo.after_both)
  ∧ get_first_board Ini.load (ini Demo.after_both) = Some "uno"
  ∧ cli Ini.load Demo.registry Demo.install_ok [] [] (Some "atom") "" Demo.after_both
    = (CliReturned (Some ("atom", "uno")), Demo.after_both).
Proof.
  assert (fill_project_envs Ini.load Demo.registry Demo.install_ok
            ["uno"; "due"] [] "" false (Demo.fresh "") = (Returned, Demo.after_both))
    as Hrun by (vm_compute; reflexivity).
  split; [exact Hrun|].
  destruct (first_board_after_merge Ini.load Demo.registry Demo.install_ok
              ["uno"; "due"] [] "" false (Demo.fresh "") Demo.after_both Hrun)
    as [Hfirst Hcli].
  - vm_compute; reflexivity.
  - vm_compute; reflexivity.
  - apply nodup_by_computation. vm_compute. exact I.
  - split; [exact Hfirst|]. by apply Hcli.
Defined.

(** The command, evaluated: with an IDE and two boards the IDE project is
    generated for the first of them after the merge; with an IDE, no
    board and an empty project it raises [BoardNotDefined]; a section
    whose [board] value is empty does not help. *)
Example cli_evaluated :
  cli Ini.load Demo.registry Demo.install_ok ["due"; "uno"] [] (Some "atom") ""
    (Demo.fresh Demo.myenv_ini)
  = (CliReturned (Some ("atom", "due")),
     (fill_project_envs Ini.load Demo.registry Demo.install_ok ["due"; "uno"] [] ""
        true (Demo.fresh Demo.myenv_ini)).2)
  ∧ cli Ini.load Demo.registry Demo.install_ok [] [] (Some "atom") "" (Demo.fresh "")
    = (CliBoardNotDefined, Demo.fresh "")
  ∧ cli Ini.load Demo.registry Demo.install_ok [] [] (Some "atom") ""
      (Demo.fresh Demo.empty_board_ini)
    = (CliBoardNotDefined, Demo.fresh Demo.empty_board_ini)
  ∧ configured_boards (Ini.load Demo.empty_board_ini) = [""]
  ∧ cli Ini.load Demo.registry Demo.install_ok [] [] None "" (Demo.fresh "")
    = (CliReturned None, Demo.fresh "").
Proof. repeat split; vm_compute; reflexivity. Qed.

(** [init_cvs_ignore], evaluated: no file; a file whose last line lacks
    its line feed; a file whose unterminated last line is one of the
    entries. *)
Example init_cvs_ignore_evaluated :
  Ignore.init_cvs_ignore None
    = ".pioenvs" +:+ Ignore.nl +:+ ".piolibdeps" +:+ Ignore.nl
  ∧ Ignore.init_cvs_ignore (Some ("build" +:+ Ignore.nl +:+ "*.o"))
    = "build" +:+ Ignore.nl +:+ "*.o" +:+ Ignore.nl
        +:+ ".pioenvs" +:+ Ignore.nl +:+ ".piolibdeps" +:+ Ignore.nl
  ∧ Ignore.init_cvs_ignore (Some (".piolibdeps" +:+ Ignore.nl +:+ ".pioenvs"))
    = ".piolibdeps" +:+ Ignore.nl +:+ ".pioenvs" +:+ Ignore.nl.
Proof. repeat split; vm_compute; reflexivity. Qed.

(** Overriding [platform] and [board] changes neither the platform
    accumulated for [uno] nor the boards in use. *)
Lemma overrides_do_not_steer_witness :
  merge_plan Ini.load Demo.registry Demo.myenv_ini ["due"] [] ""
    = inr {| content := [""; "[env:due]"; "platform = atmelsam"; "board = due";
                         "framework = arduino"];
             used_boards := ["uno"; "due"];
             used_platforms := ["atmelsam"] |}
  ∧ ∃ st',
      merge_plan Ini.load Demo.registry Demo.myenv_ini ["due"]
        ["platform=custom"; "board=other"] "x_" = inr st'
      ∧ used_boards st' = ["uno"; "due"]
      ∧ used_platforms st' = ["atmelsam"]
      ∧ ["atmelsam"] = requested_platforms Demo.registry ["due"]
      ∧ (new_envs Demo.registry ["platform=custom"; "board=other"] ["due"]
           (configured_boards (Ini.load Demo.myenv_ini))).*1
        = (new_envs Demo.registry [] ["due"]
             (configured_boards (Ini.load Demo.myenv_ini))).*1.
Proof.
  assert (merge_plan Ini.load Demo.registry Demo.myenv_ini ["due"] [] ""
          = inr {| content := [""; "[env:due]"; "platform = atmelsam"; "board = due";
                               "framework = arduino"];
                   used_boards := ["uno"; "due"];
                   used_platforms := ["atmelsam"] |}) as Hplan
    by (vm_compute; reflexivity).
  split; [exact Hplan|].
  exact (overrides_do_not_steer Ini.load Demo.registry Demo.myenv_ini ["due"] []
           ["platform=custom"; "board=other"] "" "x_" _ Hplan).
Defined.

(** Whitespace is that of text strings: the unit separator (31), next
    line (133) and no-break space (160) around a key or a value are
    removed like a space, inside a value they stay. *)
Example override_text_whitespace_evaluated :
  set_project_option [] ("k=v" +:+ String "031" "") = [("k", "v")]
  ∧ set_project_option []
      (String "160" "k" +:+ String "=" (String "133" ("v" +:+ String "028" "")))
    = [("k", "v")]
  ∧ set_project_option [] ("k=a" +:+ String "160" "b") = [("k", "a" +:+ String "160" "b")]
  ∧ Str.strip (String "009" (String "031" ("x y" +:+ String "013" (String "160" ""))))
    = "x y".
Proof. repeat split; vm_compute; reflexivity. Qed.
